(** * Logtopus: the logging facade, embedded and verified

    A shallow embedding of the [Logtopus] class: the level table, the
    threshold, the backend registry (a JavaScript [Map]), the fan-out of
    [writeLog] and the aggregate [flush].  Methods are state transformers
    that either return or throw; what a call does to the outside (backend
    invocations, console lines) is recorded in a trace. *)

From Stdlib Require Import List String Ascii ZArith Bool Arith Lia.
Import ListNotations.
Local Open Scope string_scope.
Local Open Scope Z_scope.

(** ** JavaScript values held by the level slots *)

Module JS.

(** The values that [this.__definedLogLevels[key]] and [this.__logLevel]
    can hold: [undefined], a number, or a member that the object literal
    inherits from [Object.prototype] (a function, or the prototype object
    itself for [__proto__]). *)
Inductive Val : Type :=
| Undefined
| Number (n : Z)
| Inherited (key : string).

(** ToBoolean. *)
Definition truthy (v : Val) : bool :=
  match v with
  | Undefined => false
  | Number n => negb (n =? 0)
  | Inherited _ => true
  end.

(** The property names every plain object inherits from [Object.prototype]. *)
Definition object_prototype_members : list string :=
  [ "constructor"; "__defineGetter__"; "__defineSetter__"; "hasOwnProperty";
    "__lookupGetter__"; "__lookupSetter__"; "isPrototypeOf";
    "propertyIsEnumerable"; "toString"; "valueOf"; "__proto__";
    "toLocaleString" ].

Definition is_prototype_member (k : string) : bool :=
  existsb (String.eqb k) object_prototype_members.

(** ToPrimitive of an inherited member: a built-in function prints its
    native source under its own name ([constructor] is the function
    [Object]), the prototype object prints as a plain object. *)
Definition inherited_to_string (k : string) : string :=
  if String.eqb k "__proto__" then "[object Object]"
  else if String.eqb k "constructor" then "function Object() { [native code] }"
  else "function " ++ k ++ "() { [native code] }".

(** The relational operator [a > b].  Two numbers compare as numbers; two
    inherited members compare as the strings they convert to; every other
    pair involves NaN and is false. *)
Definition gt (a b : Val) : bool :=
  match a, b with
  | Number x, Number y => y <? x
  | Inherited j, Inherited k =>
      String.ltb (inherited_to_string k) (inherited_to_string j)
  | _, _ => false
  end.

(** Strict equality [a === b] (distinct members are distinct objects). *)
Definition strict_eq (a b : Val) : bool :=
  match a, b with
  | Undefined, Undefined => true
  | Number x, Number y => x =? y
  | Inherited j, Inherited k => String.eqb j k
  | _, _ => false
  end.

(** Property read [obj[k]] on an object literal whose own properties are
    [own]: an own value, else a member found on the prototype, else
    nothing. *)
Inductive Read (A : Type) : Type :=
| Missing
| Own (a : A)
| FromPrototype (key : string).
Arguments Missing {A}.
Arguments Own {A} a.
Arguments FromPrototype {A} key.

Fixpoint own_property {A} (own : list (string * A)) (k : string) : option A :=
  match own with
  | [] => None
  | (k', v) :: rest => if String.eqb k' k then Some v else own_property rest k
  end.

Definition get_property {A} (own : list (string * A)) (k : string) : Read A :=
  match own_property own k with
  | Some v => Own v
  | None => if is_prototype_member k then FromPrototype k else Missing
  end.

Definition of_number_read (r : Read Z) : Val :=
  match r with
  | Missing => Undefined
  | Own n => Number n
  | FromPrototype k => Inherited k
  end.

End JS.

(** ** Outcomes, effects and the world outside the facade *)

Inductive Exn : Type :=
| Error (message : string)           (* [throw new Error(message)] *)
| ReferenceError (variable : string) (* read of an undeclared variable *)
| TypeError (what : string)          (* call of something that is no function *)
| ModuleNotFound (module : string)   (* the module loader found nothing *)
| ConstructorError (cls : string)    (* raised by a backend's constructor *)
| BackendError (inst : nat).         (* raised inside a backend instance *)

Inductive Outcome (A : Type) : Type :=
| Return (a : A)
| Throw (e : Exn).
Arguments Return {A} a.
Arguments Throw {A} e.

(** What a method hands back: [this] (chainable) or nothing. *)
Inductive Ret : Type := This | Void.

(** A value of a backend's configuration object. *)
Inductive ConfVal : Type := CBool (b : bool) | CStr (s : string).
Definition LoggerConf : Type := list (string * ConfVal).

(** The record passed to [logger.log]: [type], [msg], [cmsg], [data] (the
    arguments after the message, each kept as text), [time] (milliseconds
    since the epoch) and [uptime] (the reading of [process.uptime()]). *)
Record Event : Type := mkEvent {
  ev_type : string;
  ev_msg : string;
  ev_cmsg : string;
  ev_data : list string;
  ev_time : Z;
  ev_uptime : Z
}.

(** A promise, abstracted to the logical instant at which it settles and
    the way it settles. *)
Inductive Settlement : Type := Fulfilled | Rejected.
Record Promise : Type := mkPromise {
  settles_at : nat;
  settlement : Settlement
}.

(** What calling [logger.flush()] does: it throws, or it returns a promise
    (a returned value that is no promise counts, for [Promise.all], as a
    promise fulfilled at once). *)
Inductive FlushBehaviour : Type :=
| FlushThrows
| FlushReturns (p : Promise).

(** A backend class as the facade sees it: its constructor may throw, its
    [log] may throw on an event, and [flush] is optional. *)
Record LoggerClass : Type := mkClass {
  cls_name : string;
  cls_new_throws : JS.Read LoggerConf -> bool;
  cls_log_throws : Event -> bool;
  cls_flush : option FlushBehaviour
}.

(** A constructed backend: the identity of the object and its class. *)
Record Instance : Type := mkInstance {
  inst_id : nat;
  inst_class : LoggerClass
}.

(** What the facade does to the outside: constructing a backend, calling
    its [log] or its [flush], printing a line on the console. *)
Inductive Effect : Type :=
| ENew (cls : string) (conf : JS.Read LoggerConf) (inst : nat)
| ELog (inst : nat) (ev : Event)
| EFlush (inst : nat)
| EConsole (line : string).

(** ** The facade object *)

Record Logtopus : Type := mkLogtopus {
  conf_logger : list (string * LoggerConf);   (* [this.__conf.logger] *)
  logLevel : JS.Val;                          (* [this.__logLevel] *)
  debugMode : bool;                           (* [this.debugMode] *)
  environmentDefault : Z;                     (* [this.__environmentDefault] *)
  logger : list (string * Instance)           (* [this.__logger], a Map *)
}.

(** The facade together with the world it acts on: the effects so far, in
    order, and the identity the next constructed object will get. *)
Record State : Type := mkState {
  this : Logtopus;
  trace : list Effect;
  next_id : nat
}.

(** A method body: it runs on a state and returns or throws; what it
    changed before throwing stays changed. *)
Definition M (A : Type) : Type := State -> Outcome A * State.

Definition ret {A} (a : A) : M A := fun s => (Return a, s).
Definition throw {A} (e : Exn) : M A := fun s => (Throw e, s).
Definition bind {A B} (m : M A) (k : A -> M B) : M B :=
  fun s => match m s with
           | (Return a, s') => k a s'
           | (Throw e, s') => (Throw e, s')
           end.
Definition try_catch {A} (m : M A) (handler : Exn -> M A) : M A :=
  fun s => match m s with
           | (Return a, s') => (Return a, s')
           | (Throw e, s') => handler e s'
           end.

Notation "x <- m ;; k" := (bind m (fun x => k))
  (at level 61, m at next level, right associativity).
Notation "m ;;; k" := (bind m (fun _ => k))
  (at level 61, right associativity).

Definition emit (e : Effect) : M unit :=
  fun s => (Return tt, mkState (this s) (trace s ++ [e]) (next_id s)).
Definition modify (f : Logtopus -> Logtopus) : M unit :=
  fun s => (Return tt, mkState (f (this s)) (trace s) (next_id s)).
Definition when (b : bool) (m : M unit) : M unit :=
  if b then m else ret tt.

(** [Map.prototype.forEach] with a callback that may throw. *)
Fixpoint forEach {A} (f : A -> M unit) (l : list A) : M unit :=
  match l with
  | [] => ret tt
  | x :: rest => f x ;;; forEach f rest
  end.

(** ** The level table *)

(** [this.__definedLogLevels], in the order the literal lists its keys. *)
Definition definedLogLevels : list (string * Z) :=
  [ ("error", 1); ("warn", 2); ("sys", 3); ("req", 4); ("res", 5);
    ("info", 6); ("debug", 7) ].

(** The rank of a recognized level name. *)
Definition rank (name : string) : option Z :=
  JS.own_property definedLogLevels name.

(** [this.__definedLogLevels[key]]. *)
Definition level_lookup (key : string) : JS.Val :=
  JS.of_number_read (JS.get_property definedLogLevels key).

Definition set_logLevel (v : JS.Val) (o : Logtopus) : Logtopus :=
  mkLogtopus (conf_logger o) v (debugMode o) (environmentDefault o) (logger o).
Definition set_logger (l : list (string * Instance)) (o : Logtopus) : Logtopus :=
  mkLogtopus (conf_logger o) (logLevel o) (debugMode o) (environmentDefault o) l.

(** [setLevel(level)]; [None] is a call without argument.  The test
    [if (level)] fails for [undefined] and for the empty string alike. *)
Definition setLevel (level : option string) : M Ret :=
  fun s =>
    let reset :=
      modify (set_logLevel (JS.Number (environmentDefault (this s)))) ;;;
      ret This in
    match level with
    | Some name =>
        if negb (String.eqb name EmptyString) then
          let newLevel := level_lookup name in
          if negb (JS.truthy newLevel) then
            throw (Error "Invalid log level argument!") s
          else
            (modify (set_logLevel (level_lookup name)) ;;; ret This) s
        else reset s
    | None => reset s
    end.

(** [getLevel()]: the first key, in enumeration order, whose rank is
    strictly equal to the threshold; [None] is [undefined]. *)
Fixpoint first_key_with (v : JS.Val) (own : list (string * Z)) : option string :=
  match own with
  | [] => None
  | (k, r) :: rest =>
      if JS.strict_eq (JS.Number r) v then Some k else first_key_with v rest
  end.

Definition getLevel : M (option string) :=
  fun s => ret (first_key_with (logLevel (this s)) definedLogLevels) s.

(** ** Stripping terminal escape sequences

    [msg.replace(/\u001b\[(\d+;)*\d*m/g, '')].  Strings are sequences of
    bytes here; every byte of a multi-byte character is above 127, so none
    is mistaken for a character of the pattern. *)

Module Ansi.

Definition esc : ascii := ascii_of_nat 27.

Definition is_digit (c : ascii) : bool :=
  let n := nat_of_ascii c in (48 <=? n)%nat && (n <=? 57)%nat.

(** [(\d+;)*\d*m] at the head of [s]; [seen] tells whether a digit was
    read since the last [;].  On a match, what follows it.  A match can only
    end at the first [m], so the greedy search and this scan agree. *)
Fixpoint params (seen : bool) (s : string) : option string :=
  match s with
  | EmptyString => None
  | String c rest =>
      if is_digit c then params true rest
      else if Ascii.eqb c "m" then Some rest
      else if Ascii.eqb c ";" then (if seen then params false rest else None)
      else None
  end.

(** The whole pattern at the head of [s]. *)
Definition match_here (s : string) : option string :=
  match s with
  | String c (String b rest) =>
      if Ascii.eqb c esc && Ascii.eqb b "[" then params false rest else None
  | _ => None
  end.

(** Global replacement by the empty string: scan left to right, dropping
    each match and resuming after it.  [fuel] bounds the number of steps. *)
Fixpoint replace_all (fuel : nat) (s : string) : string :=
  match fuel with
  | O => s
  | S fuel' =>
      match s with
      | EmptyString => EmptyString
      | String c rest =>
          match match_here s with
          | Some after => replace_all fuel' after
          | None => String c (replace_all fuel' rest)
          end
      end
  end.

Definition strip (s : string) : string := replace_all (String.length s) s.

(** Does the pattern match anywhere in [s]? *)
Fixpoint has_escape (s : string) : bool :=
  match s with
  | EmptyString => false
  | String c rest =>
      match match_here s with
      | Some _ => true
      | None => has_escape rest
      end
  end.

End Ansi.

(** ** Messages *)

(** What a caller may pass as [msg]: something falsy, a string, an object
    with a [colorfy] method (its [text] buffer, absent or present, and what
    [colorfy(flag)] returns and leaves in the buffer), or any other truthy
    value (a number, an object without [replace]). *)
Inductive Message : Type :=
| MFalsy
| MString (s : string)
| MColorfy (text : option (list string))
           (colorfy : bool -> list string -> string * list string)
| MOtherTruthy.

(** The two renderings [(msgPlain, msgColorfied)], or the exception the
    attempt ends in. *)
Definition rendering (msg : Message) : Outcome (string * string) :=
  match msg with
  | MFalsy => Return (Ansi.strip "No message", "No message")
  | MString s =>
      let m := if String.eqb s EmptyString then "No message" else s in
      Return (Ansi.strip m, m)
  | MColorfy None _ =>
      Throw (TypeError "Cannot read properties of undefined (reading 'concat')")
  | MColorfy (Some text) colorfy =>
      let _text := text in                 (* [msg._text = msg.text.concat()] *)
      let msgPlain := fst (colorfy false text) in
      let msgColorfied := fst (colorfy true _text) in (* after [msg.text = msg._text] *)
      Return (msgPlain, msgColorfied)
  | MOtherTruthy => Throw (TypeError "msg.replace is not a function")
  end.

Definition lift {A} (o : Outcome A) : M A := fun s => (o, s).

(** ** The registry: a Map from name to instance, in insertion order *)

Definition map_has {A} (name : string) (m : list (string * A)) : bool :=
  existsb (fun kv => String.eqb (fst kv) name) m.

Fixpoint map_get {A} (name : string) (m : list (string * A)) : option A :=
  match m with
  | [] => None
  | (k, v) :: rest => if String.eqb k name then Some v else map_get name rest
  end.

Fixpoint map_set {A} (name : string) (v : A) (m : list (string * A))
  : list (string * A) :=
  match m with
  | [] => [(name, v)]
  | (k, v') :: rest =>
      if String.eqb k name then (k, v) :: rest
      else (k, v') :: map_set name v rest
  end.

Definition map_delete {A} (name : string) (m : list (string * A))
  : list (string * A) :=
  filter (fun kv => negb (String.eqb (fst kv) name)) m.

(** [new LoggerClass(arg)]. *)
Definition new_instance (cls : LoggerClass) (arg : JS.Read LoggerConf)
  : M Instance :=
  fun s =>
    if cls_new_throws cls arg then (Throw (ConstructorError (cls_name cls)), s)
    else (Return (mkInstance (next_id s) cls),
          mkState (this s) (trace s ++ [ENew (cls_name cls) arg (next_id s)])
                  (S (next_id s))).

(** [addLogger(name, LoggerClass)].  With diagnostics on, the duplicate
    branch builds its console line from [err.stack], and no [err] is in
    scope there: the read throws before anything is printed. *)
Definition addLogger (name : string) (cls : LoggerClass) : M Ret :=
  fun s =>
    if map_has name (logger (this s)) then
      (when (debugMode (this s)) (throw (ReferenceError "err")) ;;;
       ret This) s
    else
      (loggerInstance <-
         new_instance cls (JS.get_property (conf_logger (this s)) name) ;;
       modify (fun o => set_logger (map_set name loggerInstance (logger o)) o) ;;;
       ret This) s.

(** [removeLogger(name)]. *)
Definition removeLogger (name : string) : M Ret :=
  modify (fun o => set_logger (map_delete name (logger o)) o) ;;; ret This.

(** ** Dispatch *)

(** What [writeLog] reads from the process when it runs: [new Date()],
    [process.uptime()] and, with diagnostics on, what the stopwatch of the
    absent [logUtils] module reports for a backend call. *)
Record Clock : Type := mkClock {
  now : Z;
  uptime : Z;
  stopwatch : string
}.

(** One backend invocation, [logger.log(event)]. *)
Definition log_call (lg : Instance) (ev : Event) : M unit :=
  emit (ELog (inst_id lg) ev) ;;;
  if cls_log_throws (inst_class lg) ev then throw (BackendError (inst_id lg))
  else ret tt.

(** The line printed after a backend call when diagnostics are on. *)
Definition console_line (ev : Event) (clk : Clock) (lg : Instance) : Effect :=
  EConsole ("Write " ++ ev_type ev ++ " log to " ++ cls_name (inst_class lg)
            ++ " logger in " ++ stopwatch clk).

(** The callback handed to [this.__logger.forEach]. *)
Definition write_to (debug : bool) (ev : Event) (clk : Clock) (lg : Instance)
  : M unit :=
  log_call lg ev ;;;
  when debug (emit (console_line ev clk lg)).

(** The test that opens [writeLog]:
    [curLevel && curLevel > this.__logLevel]. *)
Definition filtered (type : string) (threshold : JS.Val) : bool :=
  let curLevel := level_lookup type in
  JS.truthy curLevel && JS.gt curLevel threshold.

(** [writeLog(type, msg, ...data)]. *)
Definition writeLog (type : string) (msg : Message) (data : list string)
  (clk : Clock) : M Ret :=
  fun s =>
    if filtered type (logLevel (this s)) then
      ret This s
    else
      (r <- lift (rendering msg) ;;
       forEach
         (write_to (debugMode (this s))
            (mkEvent type (fst r) (snd r) data (now clk) (uptime clk)) clk)
         (map snd (logger (this s))) ;;;
       ret Void) s.

(** The convenience methods: [debug], [info], [res], [req], [sys], [warn]
    and [error] put their own name in front of the arguments, call
    [writeLog] and return [this]. *)
Definition convenience (type : string) (msg : Message) (data : list string)
  (clk : Clock) : M Ret :=
  writeLog type msg data clk ;;; ret This.

Definition debug := convenience "debug".
Definition info := convenience "info".
Definition res := convenience "res".
Definition req := convenience "req".
Definition sys := convenience "sys".
Definition warn := convenience "warn".
Definition error := convenience "error".

(** ** Flush *)

(** [Promise.all]: rejected as soon as one input is rejected, fulfilled
    once every input is fulfilled. *)
Fixpoint rejections (ps : list Promise) : list nat :=
  match ps with
  | [] => []
  | p :: rest =>
      match settlement p with
      | Rejected => settles_at p :: rejections rest
      | Fulfilled => rejections rest
      end
  end.

Definition list_min (t : nat) (ts : list nat) : nat := fold_right Nat.min t ts.
Definition list_max (ts : list nat) : nat := fold_right Nat.max O ts.

Definition promise_all (ps : list Promise) : Promise :=
  match rejections ps with
  | [] => mkPromise (list_max (map settles_at ps)) Fulfilled
  | t :: ts => mkPromise (list_min t ts) Rejected
  end.

(** The loop of [flush]: [flushArr] grows by what each capable backend
    returns. *)
Fixpoint flush_each (loggers : list Instance) (flushArr : list Promise)
  : M (list Promise) :=
  match loggers with
  | [] => ret flushArr
  | lg :: rest =>
      match cls_flush (inst_class lg) with
      | Some behaviour =>
          emit (EFlush (inst_id lg)) ;;;
          match behaviour with
          | FlushThrows => throw (BackendError (inst_id lg))
          | FlushReturns p => flush_each rest (flushArr ++ [p])
          end
      | None => flush_each rest flushArr
      end
  end.

(** [flush()]. *)
Definition flush : M Promise :=
  fun s =>
    (flushArr <- flush_each (map snd (logger (this s))) [] ;;
     ret (promise_all flushArr)) s.

(** ** Construction *)

Record Conf : Type := mkConf {
  level : option Z;                               (* [conf.level] *)
  conf_debugMode : bool;                          (* [conf.debugMode] *)
  conf_loggers : option (list (string * LoggerConf))
      (* [conf.logger], its entries in the order [Object.keys] lists them *)
}.

Record ProcessEnv : Type := mkEnv {
  NODE_ENV : option string;
  LOGTOPUS_DEBUG : option string
}.

Definition env_is (v : option string) (tag : string) : bool :=
  match v with
  | Some s => String.eqb s tag
  | None => false
  end.

Definition env_truthy (v : option string) : bool :=
  match v with
  | Some s => negb (String.eqb s EmptyString)
  | None => false
  end.

(** The value given to [this.__environmentDefault]. *)
Definition environment_default (node_env : option string) : Z :=
  if env_is node_env "production" then 3
  else if env_is node_env "staging" then 5
  else if env_is node_env "qa" then 5
  else if env_is node_env "test" then 1
  else 6.

(** [config(conf)] fills in the two standard backends when none is given. *)
Definition default_loggers : list (string * LoggerConf) :=
  [ ("console", [ ("colors", CBool true); ("template", CStr "default");
                  ("timestamp", CBool false) ]);
    ("file", [ ("logfile", CStr "./logs/app.log") ]) ].

Definition config (conf : Conf) : list (string * LoggerConf) :=
  match conf_loggers conf with
  | Some l => l
  | None => default_loggers
  end.

(** [conf.level || 3]. *)
Definition initial_level (conf : Conf) : Z :=
  match level conf with
  | Some n => if n =? 0 then 3 else n
  | None => 3
  end.

Definition empty_conf : Conf := mkConf None false None.

(** The fields as the constructor leaves them just before [loadLogger]. *)
Definition init_object (conf : option Conf) (env : ProcessEnv) : Logtopus :=
  let conf := match conf with Some c => c | None => empty_conf end in
  mkLogtopus (config conf)
             (JS.Number (initial_level conf))
             (conf_debugMode conf || env_truthy (LOGTOPUS_DEBUG env))
             (environment_default (NODE_ENV env))
             [].

(** [loggerName.replace(/[A-Z]/g, match => '-' + match.toLowerCase())]. *)
Definition is_upper (c : ascii) : bool :=
  let n := nat_of_ascii c in (65 <=? n)%nat && (n <=? 90)%nat.

Fixpoint hyphenate (s : string) : string :=
  match s with
  | EmptyString => EmptyString
  | String c rest =>
      if is_upper c
      then String "-" (String (ascii_of_nat (nat_of_ascii c + 32)) (hyphenate rest))
      else String c (hyphenate rest)
  end.

Definition exn_text (e : Exn) : string :=
  match e with
  | Error m => "Error: " ++ m
  | ReferenceError v => "ReferenceError: " ++ v ++ " is not defined"
  | TypeError w => "TypeError: " ++ w
  | ModuleNotFound m => "Error: Cannot find module '" ++ m ++ "'"
  | ConstructorError c => "Error: in constructor of " ++ c
  | BackendError _ => "Error: in backend"
  end.

Section Construction.

(** The module loader [superimport]: a class, or nothing found. *)
Variable superimport : string -> option LoggerClass.

Definition import_class (module : string) : M LoggerClass :=
  match superimport module with
  | Some cls => ret cls
  | None => throw (ModuleNotFound module)
  end.

(** The body of the loop of [loadLogger] for one configured name.
    [console.log('[LOGTOPUS]', text)] prints the two arguments with a space
    between them.  With diagnostics on, the handler reads [err.stack]; what
    a module loader or a backend constructor throws is taken to be an error
    object ([Exn] holds no thrown [null] or [undefined], on which that read
    would throw in its turn), and [exn_text] stands for the text of its
    stack.  With diagnostics off the handler does not look at [err]. *)
Definition load_one (debug : bool) (loggerName : string) : M unit :=
  when debug
    (emit (EConsole ("[LOGTOPUS] Load " ++ loggerName ++ " logger"))) ;;;
  try_catch
    (LoggerClass <-
       import_class ("logtopus-" ++ hyphenate loggerName ++ "-logger") ;;
     addLogger loggerName LoggerClass ;;; ret tt)
    (fun err =>
       when debug
         (emit (EConsole ("[LOGTOPUS] Could not load logger module: "
                          ++ exn_text err)))).

Definition loadLogger : M unit :=
  fun s =>
    forEach (load_one (debugMode (this s)))
            (map fst (conf_logger (this s))) s.

(** [new Logtopus(conf)] in a world with trace [tr] and next identity [n]. *)
Definition construct (conf : option Conf) (env : ProcessEnv)
  (tr : list Effect) (n : nat) : Outcome unit * State :=
  loadLogger (mkState (init_object conf env) tr n).

End Construction.

(** ** Calls made by a client *)

Inductive Op : Type :=
| OSetLevel (level : option string)
| OGetLevel
| OAddLogger (name : string) (cls : LoggerClass)
| ORemoveLogger (name : string)
| OWriteLog (type : string) (msg : Message) (data : list string) (clk : Clock)
| OConvenience (type : string) (msg : Message) (data : list string) (clk : Clock)
| OFlush.

Definition forget {A} (m : M A) : M unit := m ;;; ret tt.

Definition run_op (op : Op) : M unit :=
  match op with
  | OSetLevel l => forget (setLevel l)
  | OGetLevel => forget getLevel
  | OAddLogger name cls => forget (addLogger name cls)
  | ORemoveLogger name => forget (removeLogger name)
  | OWriteLog t m d c => forget (writeLog t m d c)
  | OConvenience t m d c => forget (convenience t m d c)
  | OFlush => forget flush
  end.

(** A client that makes the calls one after the other and carries on after
    a call that threw. *)
Fixpoint run_ops (ops : list Op) (s : State) : State :=
  match ops with
  | [] => s
  | op :: rest => run_ops rest (snd (run_op op s))
  end.

(** * Vocabulary of the statements *)

(** ** States and traces *)

Definition instances (s : State) : list Instance := map snd (logger (this s)).
Definition ids (s : State) : list nat := map inst_id (instances s).

(** The state after a successful [setLevel]: only the threshold differs. *)
Definition with_level (v : JS.Val) (s : State) : State :=
  mkState (set_logLevel v (this s)) (trace s) (next_id s).

(** The state with [added] appended to its trace. *)
Definition after (s : State) (added : list Effect) : State :=
  mkState (this s) (trace s ++ added) (next_id s).

(** The effects of one successful pass of the callback of [writeLog]. *)
Definition delivery (debug : bool) (ev : Event) (clk : Clock) (lg : Instance)
  : list Effect :=
  ELog (inst_id lg) ev :: (if debug then [console_line ev clk lg] else []).

(** The backend invocations recorded in a trace, in order. *)
Fixpoint log_calls (tr : list Effect) : list (nat * Event) :=
  match tr with
  | [] => []
  | ELog i ev :: rest => (i, ev) :: log_calls rest
  | _ :: rest => log_calls rest
  end.

(** How many events the instance [i] was handed. *)
Fixpoint count_logs (i : nat) (tr : list Effect) : nat :=
  match tr with
  | [] => O
  | ELog j _ :: rest => (if Nat.eqb j i then 1 else 0) + count_logs i rest
  | _ :: rest => count_logs i rest
  end.

(** The flush invocations recorded in a trace, in order. *)
Fixpoint flush_calls (tr : list Effect) : list nat :=
  match tr with
  | [] => []
  | EFlush i :: rest => i :: flush_calls rest
  | _ :: rest => flush_calls rest
  end.

(** Is the effect, if a backend invocation, one on an instance [among]
    the given ones? *)
Definition logs_only_to (among : list nat) (e : Effect) : Prop :=
  match e with
  | ELog i _ => In i among
  | _ => True
  end.

(** Is the effect, if a backend invocation, one that carries [ev]? *)
Definition carries (ev : Event) (e : Effect) : Prop :=
  match e with
  | ELog _ ev' => ev' = ev
  | _ => True
  end.

(** ** The threshold across calls *)

(** The threshold after one call, as a function of the call, the
    environment default and the threshold before. *)
Definition next_level (op : Op) (env_default : Z) (v : JS.Val) : JS.Val :=
  match op with
  | OSetLevel None => JS.Number env_default
  | OSetLevel (Some name) =>
      if String.eqb name EmptyString then JS.Number env_default
      else if JS.truthy (level_lookup name) then level_lookup name
      else v
  | _ => v
  end.

(** Is the call a [setLevel] whose argument is absent or falsy? *)
Definition is_reset (op : Op) : bool :=
  match op with
  | OSetLevel None => true
  | OSetLevel (Some name) => String.eqb name EmptyString
  | _ => false
  end.

(** Does the configuration leave [level] out, or give it as 0? *)
Definition level_falsy (conf : option Conf) : Prop :=
  match conf with
  | None => True
  | Some c => level c = None \/ level c = Some 0
  end.

(** ** Messages and dispatches *)

(** The message a string argument stands for. *)
Definition source_message (str : string) : string :=
  if String.eqb str EmptyString then "No message"%string else str.

(** A call of [writeLog] with its arguments. *)
Record Dispatch : Type := mkDispatch {
  d_type : string;
  d_msg : Message;
  d_data : list string;
  d_clk : Clock
}.

Definition as_op (d : Dispatch) : Op :=
  OWriteLog (d_type d) (d_msg d) (d_data d) (d_clk d).

Definition event_of (d : Dispatch) : option Event :=
  match rendering (d_msg d) with
  | Return (plain, colored) =>
      Some (mkEvent (d_type d) plain colored (d_data d)
                    (now (d_clk d)) (uptime (d_clk d)))
  | Throw _ => None
  end.

(** The dispatch passes the threshold test of [s], its message renders,
    and every backend registered in [s] returns on its event: the event
    gets past all of them. *)
Definition delivered (s : State) (d : Dispatch) : bool :=
  negb (filtered (d_type d) (logLevel (this s))) &&
  match event_of d with
  | Some ev =>
      forallb (fun lg => negb (cls_log_throws (inst_class lg) ev)) (instances s)
  | None => false
  end.

(** ** Flush *)

(** [typeof logger.flush === 'function']. *)
Definition has_flush (lg : Instance) : bool :=
  match cls_flush (inst_class lg) with
  | Some _ => true
  | None => false
  end.

(** The promises that the backends' [flush] calls return, in order. *)
Fixpoint flush_promises (lgs : list Instance) : list Promise :=
  match lgs with
  | [] => []
  | lg :: rest =>
      match cls_flush (inst_class lg) with
      | Some (FlushReturns p) => p :: flush_promises rest
      | _ => flush_promises rest
      end
  end.

(** The backend's [flush], if it has one, returns instead of throwing. *)
Definition flush_returns (lg : Instance) : Prop :=
  cls_flush (inst_class lg) <> Some FlushThrows.

Definition flush_effects (lgs : list Instance) : list Effect :=
  map EFlush (map inst_id (filter has_flush lgs)).

(** ** The registry *)

(** The registry holds each instance once, and no identity that is still
    to be allocated. *)
Definition registry_ok (s : State) : Prop :=
  NoDup (ids s) /\ Forall (fun i => (i < next_id s)%nat) (ids s).

(** The instance [i] exists and is not registered. *)
Definition unregistered (i : nat) (s : State) : Prop :=
  (i < next_id s)%nat /\ ~ In i (ids s).

(** ** The pattern as a language

    The regular expression of [writeLog], read as the set of strings it
    denotes; the scan [Ansi.match_here] is measured against it below. *)

Fixpoint digits (s : string) : bool :=
  match s with
  | EmptyString => true
  | String c rest => Ansi.is_digit c && digits rest
  end.

(** [(\d+;)*\d*m] *)
Inductive Params : string -> Prop :=
| Params_end ds :
    digits ds = true -> Params (ds ++ "m")%string
| Params_group ds rest :
    digits ds = true -> ds <> EmptyString -> Params rest ->
    Params (ds ++ ";" ++ rest)%string.

(** [\u001b\[(\d+;)*\d*m] *)
Inductive Escape : string -> Prop :=
| Escape_intro p : Params p -> Escape (String Ansi.esc (String "[" p)).

(** What may follow once a digit of the current group has been read:
    [\d*;(\d+;)*\d*m] or [\d*m]. *)
Definition After_digit (p : string) : Prop :=
  exists ds, digits ds = true /\
    (p = (ds ++ "m")%string \/
     exists rest, Params rest /\ p = (ds ++ ";" ++ rest)%string).

(** * Sample facades and inputs *)

(** A facade with threshold [sys], no backend, in the development
    environment. *)
Definition sample_object : Logtopus :=
  mkLogtopus default_loggers (JS.Number 3) false 6 [].
Definition sample_state : State := mkState sample_object [] 0.

Definition no_loader : string -> option LoggerClass := fun _ => None.
Definition staging_env : ProcessEnv := mkEnv (Some "staging") None.

(** Backend classes: one that works, one whose [log] always throws, one
    without [flush]. *)
Definition at_once : Promise := mkPromise 0 Fulfilled.
Definition Healthy : LoggerClass :=
  mkClass "Healthy" (fun _ => false) (fun _ => false)
          (Some (FlushReturns at_once)).
Definition Broken : LoggerClass :=
  mkClass "Broken" (fun _ => false) (fun _ => true) None.
Definition Other : LoggerClass :=
  mkClass "Other" (fun _ => false) (fun _ => false) None.

Definition noon : Clock := mkClock 1500000000000 12 "3ms".

Definition two_healthy : State :=
  mkState (set_logger [ ("console", mkInstance 0 Healthy);
                        ("file", mkInstance 1 Healthy) ] sample_object)
          [] 2.

Definition broken_first : State :=
  mkState (set_logger [ ("console", mkInstance 0 Broken);
                        ("file", mkInstance 1 Healthy) ] sample_object)
          [] 2.

(** The facade [two_healthy] with diagnostics switched on. *)
Definition two_healthy_debug : State :=
  mkState (mkLogtopus default_loggers (JS.Number 3) true 6
                      [ ("console", mkInstance 0 Healthy);
                        ("file", mkInstance 1 Healthy) ])
          [] 2.

(** Two backends whose flushes end differently: the first takes long and
    succeeds, the second fails early. *)
Definition SlowDisk : LoggerClass :=
  mkClass "SlowDisk" (fun _ => false) (fun _ => false)
          (Some (FlushReturns (mkPromise 5 Fulfilled))).
Definition LostLink : LoggerClass :=
  mkClass "LostLink" (fun _ => false) (fun _ => false)
          (Some (FlushReturns (mkPromise 1 Rejected))).
Definition slow_and_failing : State :=
  mkState (set_logger [ ("console", mkInstance 0 SlowDisk);
                        ("file", mkInstance 1 LostLink) ] sample_object)
          [] 2.

(** A message in bold red: ESC[1;31m ... ESC[0m. *)
Definition red_alert : string :=
  String Ansi.esc "[1;31malert" ++ String Ansi.esc "[0m".

Definition three_dispatches : list Dispatch :=
  [ mkDispatch "error" (MString "disk full") [] noon;
    mkDispatch "warn" MFalsy ["code 7"%string] noon;
    mkDispatch "sys" (MString red_alert) [] noon ].

(** * More vocabulary: loading, ordering, the labelled timer *)

(** ** Loading the configured backends *)

(** The module asked for on behalf of a configured name. *)
Definition module_name (loggerName : string) : string :=
  "logtopus-" ++ hyphenate loggerName ++ "-logger".

(** The constructions and the console lines recorded in a trace. *)
Definition is_new (e : Effect) : bool :=
  match e with
  | ENew _ _ _ => true
  | _ => false
  end.

Definition is_console (e : Effect) : bool :=
  match e with
  | EConsole _ => true
  | _ => false
  end.

Definition constructions (tr : list Effect) : list Effect := filter is_new tr.
Definition console_lines (tr : list Effect) : list Effect := filter is_console tr.

Section Loading.

Variable superimport : string -> option LoggerClass.

(** The class a configured name ends up with, if any: its module resolves
    and the constructor returns on the configuration kept under the name. *)
Definition loadable (confs : list (string * LoggerConf)) (name : string)
  : option LoggerClass :=
  match superimport (module_name name) with
  | Some cls =>
      if cls_new_throws cls (JS.get_property confs name) then None
      else Some cls
  | None => None
  end.

(** The registry entries that loading [names] makes, the first new
    instance getting the identity [n]. *)
Fixpoint loaded (confs : list (string * LoggerConf)) (names : list string)
  (n : nat) : list (string * Instance) :=
  match names with
  | [] => []
  | name :: rest =>
      match loadable confs name with
      | Some cls => (name, mkInstance n cls) :: loaded confs rest (S n)
      | None => loaded confs rest n
      end
  end.

(** The constructions that go with them. *)
Fixpoint loaded_effects (confs : list (string * LoggerConf))
  (names : list string) (n : nat) : list Effect :=
  match names with
  | [] => []
  | name :: rest =>
      match loadable confs name with
      | Some cls =>
          ENew (cls_name cls) (JS.get_property confs name) n
          :: loaded_effects confs rest (S n)
      | None => loaded_effects confs rest n
      end
  end.

End Loading.


(** A loader that knows the console backend only. *)
Definition console_only (module : string) : option LoggerClass :=
  if String.eqb module "logtopus-console-logger" then Some Healthy else None.

(** ** Module names *)

(** How many capital letters A to Z a name holds. *)
Fixpoint count_upper (s : string) : nat :=
  match s with
  | EmptyString => O
  | String c rest => ((if is_upper c then 1 else 0) + count_upper rest)%nat
  end.

(** ** Names in the registry *)

Definition names (s : State) : list string := map fst (logger (this s)).

(** Every registered instance was constructed since the identity [n] was
    the next to be given out. *)
Definition allocated_from (n : nat) (s : State) : Prop :=
  (n <= next_id s)%nat /\
  Forall (fun i => (n <= i < next_id s)%nat) (ids s).


(** ** Kinds of calls *)

Definition is_setLevel (op : Op) : bool :=
  match op with OSetLevel _ => true | _ => false end.
Definition is_addLogger (op : Op) : bool :=
  match op with OAddLogger _ _ => true | _ => false end.
Definition is_removeLogger (op : Op) : bool :=
  match op with ORemoveLogger _ => true | _ => false end.
Definition is_dispatch (op : Op) : bool :=
  match op with OWriteLog _ _ _ _ | OConvenience _ _ _ _ => true | _ => false end.
Definition is_flush (op : Op) : bool :=
  match op with OFlush => true | _ => false end.


(** ** Text without escape character *)

Fixpoint no_esc (t : string) : bool :=
  match t with
  | EmptyString => true
  | String c rest => negb (Ascii.eqb c Ansi.esc) && no_esc rest
  end.

(** ** The labelled timer

    [timer(message)]: without a message (absent or empty) the caller gets
    the bare stopwatch of the absent [logUtils] module and the facade is
    not involved any further; with a message the caller gets a handle
    whose [stop()] and [log(msg)] format the stopwatch's reading into a
    text with [util.format] and dispatch it at level [info].  The
    formatter and the readings are taken as given. *)

Definition timer_label (message : option string) : option string :=
  match message with
  | Some m => if String.eqb m EmptyString then None else Some m
  | None => None
  end.

Section Timer.

(** [util.format(format, reading)]. *)
Variable util_format : string -> string -> string.

(** [stop()] of the handle made for [message]; [reading] is what the
    stopwatch's [stop()] returns. *)
Definition labelled_stop (message reading : string) (clk : Clock) : M Ret :=
  writeLog "info" (MString (util_format message reading)) [] clk ;;; ret Void.

(** [log(msg)] of the handle; [reading] is what the stopwatch's [log()]
    returns. *)
Definition labelled_log (msg reading : string) (clk : Clock) : M Ret :=
  writeLog "info" (MString (util_format msg reading)) [] clk ;;; ret Void.

End Timer.

(** A formatter that puts the reading in place of the first [%s], or
    behind the text when there is none; enough to run the timer on. *)
Fixpoint put_reading (format reading : string) : option string :=
  match format with
  | EmptyString => None
  | String "%" (String "s" rest) => Some (reading ++ rest)
  | String c rest =>
      match put_reading rest reading with
      | Some r => Some (String c r)
      | None => None
      end
  end.

Definition sample_format (format reading : string) : string :=
  match put_reading format reading with
  | Some r => r
  | None => format ++ " " ++ reading
  end.


(** A backend whose [flush] throws, between two that work. *)
Definition Net : LoggerClass :=
  mkClass "Net" (fun _ => false) (fun _ => false) (Some FlushThrows).
Definition flush_throws_midway : State :=
  mkState (set_logger [ ("console", mkInstance 0 Healthy);
                        ("net", mkInstance 1 Net);
                        ("file", mkInstance 2 Healthy) ] sample_object)
          [] 3.

(** ** The small letters

    What [toLowerCase] makes of each of the letters matched by [/[A-Z]/],
    written out as a table; every other character is left out of it. *)
Definition small_letter (c : ascii) : option ascii :=
  match c with
  | "A" => Some "a" | "B" => Some "b" | "C" => Some "c" | "D" => Some "d"
  | "E" => Some "e" | "F" => Some "f" | "G" => Some "g" | "H" => Some "h"
  | "I" => Some "i" | "J" => Some "j" | "K" => Some "k" | "L" => Some "l"
  | "M" => Some "m" | "N" => Some "n" | "O" => Some "o" | "P" => Some "p"
  | "Q" => Some "q" | "R" => Some "r" | "S" => Some "s" | "T" => Some "t"
  | "U" => Some "u" | "V" => Some "v" | "W" => Some "w" | "X" => Some "x"
  | "Y" => Some "y" | "Z" => Some "z"
  | _ => None
  end%char.

(** A name in which every letter of the table is replaced by a hyphen and
    its small letter, and nothing else is touched. *)
Fixpoint hyphen_and_small (s : string) : string :=
  match s with
  | EmptyString => EmptyString
  | String c rest =>
      match small_letter c with
      | Some l => String "-" (String l (hyphen_and_small rest))
      | None => String c (hyphen_and_small rest)
      end
  end.

(** ** Colour and style sequences as a terminal reads them

    A second reading, taken from the words of the specification and not
    from the code.  A colour or style escape sequence is the control
    function SGR (select graphic rendition) of ECMA-48: the escape
    character, an opening bracket, parameters made of digits and separated
    by semicolons, where a parameter may be empty and then stands for its
    default, and the letter m. *)
Module SpecSgr.

(** Digits and semicolons up to the letter m; on a match, what follows. *)
Fixpoint params (s : string) : option string :=
  match s with
  | EmptyString => None
  | String c rest =>
      if Ansi.is_digit c || Ascii.eqb c ";" then params rest
      else if Ascii.eqb c "m" then Some rest
      else None
  end.

Definition match_here (s : string) : option string :=
  match s with
  | String c (String b rest) =>
      if Ascii.eqb c Ansi.esc && Ascii.eqb b "[" then params rest else None
  | _ => None
  end.

(** The text with every such sequence taken out, from left to right. *)
Fixpoint remove_all (fuel : nat) (s : string) : string :=
  match fuel with
  | O => s
  | S fuel' =>
      match s with
      | EmptyString => EmptyString
      | String c rest =>
          match match_here s with
          | Some after => remove_all fuel' after
          | None => String c (remove_all fuel' rest)
          end
      end
  end.

Definition strip (s : string) : string := remove_all (String.length s) s.

End SpecSgr.



(** The sequence that resets the style and then makes it bold, before a
    letter: its first parameter is empty. *)
Definition reset_bold_x : string := String Ansi.esc "[;1mx".


(** * Properties *)

Local Open Scope list_scope.

(** ** Tools *)

Ltac run :=
  unfold forget, bind, ret, throw, lift, modify, emit, when, try_catch in *;
  simpl in *.

Lemma own_property_In {A} (own : list (string * A)) k v :
  JS.own_property own k = Some v -> In (k, v) own.
Proof.
  induction own as [|[k' v'] own IH]; simpl; [discriminate|].
  destruct (String.eqb_spec k' k) as [->|_].
  - intros [= ->]. now left.
  - intros H. right. auto.
Qed.

(** The seven names, one by one. *)
Lemma rank_cases name r :
  rank name = Some r ->
  (name, r) = ("error", 1) \/ (name, r) = ("warn", 2) \/
  (name, r) = ("sys", 3) \/ (name, r) = ("req", 4) \/
  (name, r) = ("res", 5) \/ (name, r) = ("info", 6) \/
  (name, r) = ("debug", 7).
Proof.
  intros H. apply own_property_In in H. simpl in H.
  repeat (destruct H as [H|H]; [inversion H; subst; tauto|]).
  contradiction.
Qed.

Lemma rank_range name r : rank name = Some r -> 1 <= r <= 7.
Proof.
  intros H. apply rank_cases in H.
  repeat (destruct H as [H|H]; [inversion H; lia|]). inversion H; lia.
Qed.

Lemma level_lookup_rank name r :
  rank name = Some r -> level_lookup name = JS.Number r.
Proof.
  unfold rank, level_lookup, JS.get_property. now intros ->.
Qed.

Lemma level_lookup_unranked name :
  rank name = None ->
  level_lookup name =
    if JS.is_prototype_member name then JS.Inherited name else JS.Undefined.
Proof.
  unfold rank, level_lookup, JS.get_property. intros ->.
  now destruct (JS.is_prototype_member name).
Qed.

Lemma set_logLevel_same o : set_logLevel (logLevel o) o = o.
Proof. now destruct o. Qed.

Lemma set_logger_same o : set_logger (logger o) o = o.
Proof. now destruct o. Qed.

Lemma state_eta s : mkState (this s) (trace s) (next_id s) = s.
Proof. now destruct s. Qed.

Lemma setLevel_ranked name r s :
  rank name = Some r ->
  setLevel (Some name) s = (Return This, with_level (JS.Number r) s).
Proof.
  intros H. unfold setLevel.
  assert (Hne : String.eqb name EmptyString = false).
  { apply rank_cases in H.
    repeat (destruct H as [H|H]; [inversion H; reflexivity|]).
    inversion H; reflexivity. }
  rewrite Hne, (level_lookup_rank _ _ H). simpl.
  apply rank_range in H.
  destruct (Z.eqb_spec r 0); [lia|]. reflexivity.
Qed.

Lemma setLevel_reset level s :
  level = None \/ level = Some EmptyString ->
  setLevel level s =
    (Return This, with_level (JS.Number (environmentDefault (this s))) s).
Proof. intros [->| ->]; reflexivity. Qed.

Lemma setLevel_invalid name s :
  name <> EmptyString -> level_lookup name = JS.Undefined ->
  setLevel (Some name) s = (Throw (Error "Invalid log level argument!"), s).
Proof.
  intros Hne Hl. unfold setLevel.
  destruct (String.eqb_spec name EmptyString); [contradiction|].
  simpl. rewrite Hl. reflexivity.
Qed.

Lemma setLevel_inherited name s :
  rank name = None -> JS.is_prototype_member name = true ->
  setLevel (Some name) s = (Return This, with_level (JS.Inherited name) s).
Proof.
  intros Hr Hp. unfold setLevel.
  assert (Hne : String.eqb name EmptyString = false).
  { destruct (String.eqb_spec name EmptyString) as [->|]; [discriminate|easy]. }
  rewrite Hne, (level_lookup_unranked _ Hr), Hp. reflexivity.
Qed.

Lemma first_key_with_In v own k :
  first_key_with v own = Some k ->
  exists r, In (k, r) own /\ v = JS.Number r.
Proof.
  induction own as [|[k' r'] own IH]; cbn [first_key_with]; [discriminate|].
  destruct (JS.strict_eq (JS.Number r') v) eqn:E.
  - intros [= ->]. exists r'. split; [now left|].
    destruct v as [|n|key]; cbn in E; try discriminate.
    apply Z.eqb_eq in E. now subst.
  - intros H. destruct (IH H) as [r [Hin Hv]]. exists r. split; [now right|easy].
Qed.

(** ** The level table and the threshold *)

(** Claim C9. For every recognized level name [name], [setLevel(name)]
    followed by [getLevel()] returns [name]: the table pairs seven distinct
    names with the ranks 1 to 7, and whatever name [getLevel] returns has
    the current threshold as its rank. *)
Theorem setLevel_getLevel_roundtrip :
  forall (name : string) (r : Z) (s : State),
    rank name = Some r ->
    (let s1 := snd (setLevel (Some name) s) in
     fst (setLevel (Some name) s) = Return This /\
     getLevel s1 = (Return (Some name), s1)) /\
    NoDup (map fst definedLogLevels) /\
    map snd definedLogLevels = [1; 2; 3; 4; 5; 6; 7] /\
    (forall (s' : State) (k : string),
        fst (getLevel s') = Return (Some k) ->
        exists r', rank k = Some r' /\ logLevel (this s') = JS.Number r').
Proof.
  intros name r s H. split; [split|split; [|split]].
  - now rewrite (setLevel_ranked _ _ _ H).
  - rewrite (setLevel_ranked _ _ _ H). simpl.
    unfold getLevel, ret. simpl. f_equal. f_equal.
    apply rank_cases in H.
    repeat (destruct H as [H|H]; [inversion H; reflexivity|]).
    inversion H; reflexivity.
  - simpl. repeat constructor; simpl; intuition discriminate.
  - reflexivity.
  - intros s' k. unfold getLevel, ret. cbn [fst]. intros Hret.
    assert (Hk : first_key_with (logLevel (this s')) definedLogLevels = Some k)
      by congruence.
    clear Hret. apply first_key_with_In in Hk. destruct Hk as [r' [Hin Hv]].
    exists r'. split; [|assumption].
    simpl in Hin.
    repeat (destruct Hin as [Hin|Hin]; [inversion Hin; reflexivity|]).
    contradiction.
Qed.

Lemma setLevel_getLevel_roundtrip_witness :
  rank "res" = Some 5 /\
  getLevel (snd (setLevel (Some "res") sample_state))
  = (Return (Some "res"), snd (setLevel (Some "res") sample_state)).
Proof.
  split; [reflexivity|].
  exact (proj2 (proj1 (setLevel_getLevel_roundtrip "res" 5 sample_state
                         eq_refl))).
Defined.

(** Claim C2, counterexample. Two names outside the level table that
    [setLevel] accepts: [constructor], found on the prototype of the table
    object, becomes the threshold; the empty string resets the threshold to
    the environment default.  Neither call throws, both change the
    threshold. *)
Lemma setLevel_unlisted_name_accepted :
  rank "constructor" = None /\
  setLevel (Some "constructor") sample_state
  = (Return This, with_level (JS.Inherited "constructor") sample_state) /\
  rank EmptyString = None /\
  setLevel (Some EmptyString) sample_state
  = (Return This, with_level (JS.Number 6) sample_state) /\
  logLevel (this sample_state) = JS.Number 3.
Proof. repeat split. Qed.

(** Claim C2, amended. For every name in the level table, [setLevel(name)]
    sets the threshold to its rank.  For every non-empty name that the table
    object resolves to nothing (not a level, not a member inherited from
    [Object.prototype]), it throws the invalid-level error and leaves the
    state as it was.  The empty string counts as no argument: the threshold
    becomes the environment default. *)
Theorem setLevel_spec :
  forall (name : string) (s : State),
    (forall r, rank name = Some r ->
       setLevel (Some name) s = (Return This, with_level (JS.Number r) s)) /\
    (name <> EmptyString -> rank name = None ->
     JS.is_prototype_member name = false ->
       setLevel (Some name) s
       = (Throw (Error "Invalid log level argument!"), s)) /\
    (name = EmptyString ->
       setLevel (Some name) s
       = (Return This, with_level (JS.Number (environmentDefault (this s))) s)).
Proof.
  intros name s. repeat split.
  - intros r H. now apply setLevel_ranked.
  - intros Hne Hr Hp. apply setLevel_invalid; [assumption|].
    now rewrite (level_lookup_unranked _ Hr), Hp.
  - intros ->. apply setLevel_reset. now right.
Qed.

Lemma setLevel_spec_witness :
  setLevel (Some "warn") sample_state
  = (Return This, with_level (JS.Number 2) sample_state) /\
  setLevel (Some "verbose") sample_state
  = (Throw (Error "Invalid log level argument!"), sample_state) /\
  setLevel (Some EmptyString) sample_state
  = (Return This, with_level (JS.Number 6) sample_state).
Proof.
  destruct (setLevel_spec "warn" sample_state) as [H1 _].
  destruct (setLevel_spec "verbose" sample_state) as [_ [H2 _]].
  destruct (setLevel_spec EmptyString sample_state) as [_ [_ H3]].
  split; [apply H1; reflexivity|].
  split; [apply H2; [discriminate|reflexivity|reflexivity]|].
  apply H3; reflexivity.
Defined.

(** ** What the fan-out does to the world *)

Lemma after_nil s : after s [] = s.
Proof. unfold after. rewrite app_nil_r. apply state_eta. Qed.

Lemma after_after s a b : after (after s a) b = after s (a ++ b).
Proof. unfold after. simpl. now rewrite app_assoc. Qed.

Lemma log_calls_app a b : log_calls (a ++ b) = (log_calls a ++ log_calls b)%list.
Proof.
  induction a as [|e a IH]; [reflexivity|].
  destruct e; simpl; rewrite ?IH; reflexivity.
Qed.

Lemma count_logs_app i a b :
  count_logs i (a ++ b) = (count_logs i a + count_logs i b)%nat.
Proof.
  induction a as [|e a IH]; [reflexivity|].
  destruct e; simpl; rewrite ?IH; lia.
Qed.

Lemma flush_calls_app a b : flush_calls (a ++ b) = (flush_calls a ++ flush_calls b)%list.
Proof.
  induction a as [|e a IH]; [reflexivity|].
  destruct e; simpl; rewrite ?IH; reflexivity.
Qed.

Lemma count_logs_elsewhere i among added :
  Forall (logs_only_to among) added -> ~ In i among ->
  count_logs i added = O.
Proof.
  intros H Hni. induction H as [|e added He _ IH]; [reflexivity|].
  destruct e; simpl in *; try assumption.
  rewrite IH. destruct (Nat.eqb_spec inst i); [subst; contradiction|reflexivity].
Qed.

Lemma write_to_run debug ev clk lg s :
  write_to debug ev clk lg s =
    if cls_log_throws (inst_class lg) ev
    then (Throw (BackendError (inst_id lg)), after s [ELog (inst_id lg) ev])
    else (Return tt, after s (delivery debug ev clk lg)).
Proof.
  unfold write_to, log_call, delivery, console_line, after. run.
  destruct (cls_log_throws (inst_class lg) ev); [reflexivity|].
  destruct debug; simpl; [|reflexivity].
  now rewrite <- app_assoc.
Qed.

(** Every backend returns: each one is handed the event, in order. *)
Lemma fan_out_all debug ev clk lgs s :
  Forall (fun lg => cls_log_throws (inst_class lg) ev = false) lgs ->
  forEach (write_to debug ev clk) lgs s =
    (Return tt, after s (flat_map (delivery debug ev clk) lgs)).
Proof.
  intros H. revert s.
  induction H as [|lg lgs Hlg _ IH]; intros s.
  - simpl. unfold ret. now rewrite after_nil.
  - cbn [forEach flat_map]. unfold bind.
    rewrite write_to_run, Hlg, IH, after_after. reflexivity.
Qed.

(** A backend throws: the ones before it were served, the ones behind it
    are not reached, and the exception leaves the loop. *)
Lemma fan_out_interrupted debug ev clk before lg behind s :
  Forall (fun b => cls_log_throws (inst_class b) ev = false) before ->
  cls_log_throws (inst_class lg) ev = true ->
  forEach (write_to debug ev clk) (before ++ lg :: behind) s =
    (Throw (BackendError (inst_id lg)),
     after s (flat_map (delivery debug ev clk) before ++ [ELog (inst_id lg) ev])).
Proof.
  intros H Hlg. revert s.
  induction H as [|b before Hb _ IH]; intros s.
  - cbn [app forEach flat_map]. unfold bind. now rewrite write_to_run, Hlg.
  - cbn [app forEach flat_map]. unfold bind.
    rewrite write_to_run, Hb, IH, after_after, app_assoc. reflexivity.
Qed.

(** Whatever happens, the loop touches nothing but the trace, and invokes
    none but the listed instances. *)
Lemma fan_out_frame debug ev clk lgs s :
  exists added,
    snd (forEach (write_to debug ev clk) lgs s) = after s added /\
    Forall (logs_only_to (map inst_id lgs)) added.
Proof.
  revert s. induction lgs as [|lg lgs IH]; intros s.
  - exists []. simpl. now rewrite after_nil.
  - cbn [forEach]. unfold bind. rewrite write_to_run.
    destruct (cls_log_throws (inst_class lg) ev).
    + eexists. split; [reflexivity|]. repeat constructor.
    + destruct (IH (after s (delivery debug ev clk lg))) as [added [E F]].
      destruct (forEach _ lgs _) as [[[]|e] s']; simpl in E; subst s';
        (exists (delivery debug ev clk lg ++ added);
         split; [simpl; now rewrite after_after|];
         apply Forall_app; split;
         [unfold delivery; destruct debug; repeat constructor; simpl; now left
         |eapply Forall_impl; [|exact F];
          intros [] Ha; simpl in *; auto]).
Qed.

Lemma writeLog_frame type msg data clk s :
  exists added,
    snd (writeLog type msg data clk s) = after s added /\
    Forall (logs_only_to (ids s)) added.
Proof.
  unfold writeLog.
  destruct (filtered type (logLevel (this s))).
  - exists []. simpl. now rewrite after_nil.
  - run. destruct (rendering msg) as [[p c]|e].
    + destruct (fan_out_frame (debugMode (this s))
                  (mkEvent type p c data (now clk) (uptime clk)) clk
                  (instances s) s) as [added [E F]].
      exists added. split; [|exact F].
      unfold instances in *. simpl.
      destruct (forEach _ _ s) as [[[]|e] s']; simpl in *; exact E.
    + exists []. simpl. now rewrite after_nil.
Qed.

Lemma convenience_run type msg data clk s :
  snd (convenience type msg data clk s) = snd (writeLog type msg data clk s) /\
  (forall e, fst (writeLog type msg data clk s) = Throw e ->
             fst (convenience type msg data clk s) = Throw e) /\
  (forall r, fst (writeLog type msg data clk s) = Return r ->
             fst (convenience type msg data clk s) = Return This).
Proof.
  unfold convenience. run.
  destruct (writeLog type msg data clk s) as [[r|e] s']; simpl;
    repeat split; intros; congruence.
Qed.

(** ** What each method does to the facade *)

Lemma addLogger_run name cls s :
  addLogger name cls s =
    if map_has name (logger (this s)) then
      if debugMode (this s) then (Throw (ReferenceError "err"), s)
      else (Return This, s)
    else if cls_new_throws cls (JS.get_property (conf_logger (this s)) name)
    then (Throw (ConstructorError (cls_name cls)), s)
    else (Return This,
          mkState (set_logger (map_set name (mkInstance (next_id s) cls)
                                       (logger (this s))) (this s))
                  (trace s ++ [ENew (cls_name cls)
                                 (JS.get_property (conf_logger (this s)) name)
                                 (next_id s)])
                  (S (next_id s))).
Proof.
  unfold addLogger, new_instance. run.
  destruct (map_has name (logger (this s))).
  - now destruct (debugMode (this s)).
  - now destruct (cls_new_throws cls _).
Qed.

Lemma removeLogger_run name s :
  removeLogger name s =
    (Return This,
     mkState (set_logger (map_delete name (logger (this s))) (this s))
             (trace s) (next_id s)).
Proof. reflexivity. Qed.

Lemma map_delete_absent {A} name (m : list (string * A)) :
  map_has name m = false -> map_delete name m = m.
Proof.
  unfold map_has, map_delete.
  induction m as [|[k v] m IH]; simpl; [reflexivity|].
  destruct (String.eqb k name); simpl; [discriminate|].
  intros H. now rewrite IH.
Qed.

Lemma map_delete_In {A} name (m : list (string * A)) kv :
  In kv (map_delete name m) -> In kv m /\ fst kv <> name.
Proof.
  unfold map_delete. rewrite filter_In. intros [H1 H2]. split; [assumption|].
  destruct (String.eqb_spec (fst kv) name); [discriminate|assumption].
Qed.

Lemma map_set_In {A} name (v : A) m kv :
  In kv (map_set name v m) -> kv = (name, v) \/ In kv m.
Proof.
  induction m as [|[k v'] m IH]; simpl.
  - intros [<-|[]]. now left.
  - destruct (String.eqb_spec k name) as [->|_]; simpl.
    + intros [<-|H]; auto.
    + intros [<-|H]; auto. destruct (IH H); auto.
Qed.

Lemma map_set_fresh {A} name (v : A) m :
  map_has name m = false -> map_set name v m = m ++ [(name, v)].
Proof.
  unfold map_has. induction m as [|[k v'] m IH]; simpl; [reflexivity|].
  destruct (String.eqb k name); simpl; [discriminate|].
  intros H. now rewrite IH.
Qed.

Lemma map_get_In {A} name (m : list (string * A)) v :
  map_get name m = Some v -> In (name, v) m.
Proof.
  induction m as [|[k v'] m IH]; simpl; [discriminate|].
  destruct (String.eqb_spec k name) as [->|_].
  - intros [= ->]. now left.
  - intros H. right. auto.
Qed.

(** The loop of [flush] adds flush invocations to the trace and nothing
    else. *)
Lemma flush_each_frame lgs acc s :
  exists added,
    snd (flush_each lgs acc s) = after s added /\
    Forall (logs_only_to []) added.
Proof.
  revert acc s. induction lgs as [|lg lgs IH]; intros acc s.
  - exists []. simpl. now rewrite after_nil.
  - cbn [flush_each]. destruct (cls_flush (inst_class lg)) as [[|p]|].
    + eexists. split; [reflexivity|]. repeat constructor.
    + run. destruct (IH (acc ++ [p]) (after s [EFlush (inst_id lg)]))
        as [added [E F]].
      exists (EFlush (inst_id lg) :: added). split.
      * unfold after in E. simpl in E. rewrite E.
        unfold after. simpl. now rewrite <- app_assoc.
      * constructor; [exact I|exact F].
    + apply IH.
Qed.

Lemma flush_frame s :
  exists added,
    snd (flush s) = after s added /\ Forall (logs_only_to []) added.
Proof.
  unfold flush. run.
  destruct (flush_each_frame (map snd (logger (this s))) [] s)
    as [added [E F]].
  exists added. split; [|exact F].
  destruct (flush_each _ _ s) as [[ps|e] s']; simpl in *; exact E.
Qed.

Lemma logs_only_to_weaken among among' added :
  (forall i, In i among -> In i among') ->
  Forall (logs_only_to among) added -> Forall (logs_only_to among') added.
Proof.
  intros Hsub. apply Forall_impl. intros [] H; simpl in *; auto.
Qed.

(** One call of a client: the trace grows, and backends are invoked only if
    registered. *)
Lemma run_op_trace op s :
  exists added,
    trace (snd (run_op op s)) = trace s ++ added /\
    Forall (logs_only_to (ids s)) added.
Proof.
  destruct op as [l| |name cls|name|t m d c|t m d c|]; unfold run_op, forget.
  - exists []. rewrite app_nil_r. split; [|constructor].
    unfold setLevel. run.
    destruct l as [name|]; [|reflexivity].
    destruct (String.eqb name EmptyString); simpl; [reflexivity|].
    now destruct (JS.truthy (level_lookup name)).
  - exists []. rewrite app_nil_r. split; [reflexivity|constructor].
  - unfold bind. rewrite addLogger_run.
    destruct (map_has name (logger (this s))).
    + exists []. rewrite app_nil_r. split; [|constructor].
      now destruct (debugMode (this s)).
    + destruct (cls_new_throws cls _).
      * exists []. rewrite app_nil_r. split; [reflexivity|constructor].
      * eexists. split; [reflexivity|]. repeat constructor.
  - exists []. rewrite app_nil_r. split; [reflexivity|constructor].
  - destruct (writeLog_frame t m d c s) as [added [E F]].
    exists added. split; [|exact F]. unfold bind.
    destruct (writeLog t m d c s) as [[r|e] s']; simpl in *; now subst s'.
  - destruct (writeLog_frame t m d c s) as [added [E F]].
    exists added. split; [|exact F].
    destruct (convenience_run t m d c s) as [E' _]. unfold bind.
    destruct (convenience t m d c s) as [[r|e] s']; simpl in *;
      rewrite E', E; reflexivity.
  - destruct (flush_frame s) as [added [E F]].
    exists added. split.
    + unfold bind. destruct (flush s) as [[r|e] s']; simpl in *; now subst s'.
    + eapply logs_only_to_weaken; [|exact F]. intros i [].
Qed.

(** One call of a client, field by field: configuration, diagnostics flag
    and environment default stay; the threshold moves as [next_level] says;
    identities in the registry are old ones or freshly allocated ones. *)
Lemma run_op_shape op s :
  exists l added n',
    snd (run_op op s) =
      mkState (mkLogtopus (conf_logger (this s))
                          (next_level op (environmentDefault (this s))
                                      (logLevel (this s)))
                          (debugMode (this s))
                          (environmentDefault (this s)) l)
              (trace s ++ added) n' /\
    (next_id s <= n')%nat /\
    (forall i, In i (map inst_id (map snd l)) ->
               In i (ids s) \/ (next_id s <= i < n')%nat) /\
    Forall (logs_only_to (ids s)) added.
Proof.
  assert (Hsame : forall added,
             after s added =
             mkState (mkLogtopus (conf_logger (this s)) (logLevel (this s))
                                 (debugMode (this s))
                                 (environmentDefault (this s))
                                 (logger (this s)))
                     (trace s ++ added) (next_id s)).
  { intros added. unfold after. now destruct s as [[] ? ?]. }
  destruct (run_op_trace op s) as [added [Etr F]].
  destruct op as [l| |name cls|name|t m d c|t m d c|];
    unfold run_op, forget in *; cbn [next_level].
  - exists (logger (this s)), [], (next_id s).
    split; [|split; [lia|split; [now left|constructor]]].
    unfold setLevel. run.
    destruct l as [name|]; [|now rewrite app_nil_r].
    destruct (String.eqb name EmptyString); simpl; [now rewrite app_nil_r|].
    destruct (JS.truthy (level_lookup name)); simpl; [now rewrite app_nil_r|].
    rewrite <- (Hsame []). now rewrite after_nil.
  - exists (logger (this s)), [], (next_id s).
    split; [|split; [lia|split; [now left|constructor]]].
    rewrite <- Hsame. now rewrite after_nil.
  - unfold bind in *. rewrite addLogger_run in *.
    destruct (map_has name (logger (this s))).
    + exists (logger (this s)), [], (next_id s).
      split; [|split; [lia|split; [now left|constructor]]].
      rewrite <- Hsame, after_nil. now destruct (debugMode (this s)).
    + destruct (cls_new_throws cls _).
      * exists (logger (this s)), [], (next_id s).
        split; [|split; [lia|split; [now left|constructor]]].
        now rewrite <- Hsame, after_nil.
      * eexists _, _, _. split; [reflexivity|].
        split; [lia|]. split; [|repeat constructor].
        intros i Hi. rewrite map_map in Hi. apply in_map_iff in Hi.
        destruct Hi as [kv [<- Hin]]. apply map_set_In in Hin.
        destruct Hin as [->|Hin].
        -- right. simpl. lia.
        -- left. unfold ids, instances. rewrite map_map.
           apply in_map_iff. now exists kv.
  - eexists _, [], _. split; [rewrite app_nil_r; reflexivity|].
    split; [simpl; lia|]. split; [|constructor].
    intros i Hi. rewrite map_map in Hi. apply in_map_iff in Hi.
    destruct Hi as [kv [<- Hin]]. apply map_delete_In in Hin.
    left. unfold ids, instances. rewrite map_map.
    apply in_map_iff. exists kv. tauto.
  - destruct (writeLog_frame t m d c s) as [added' [E F']].
    exists (logger (this s)), added', (next_id s).
    split; [|split; [lia|split; [now left|exact F']]].
    rewrite <- Hsame. unfold bind.
    destruct (writeLog t m d c s) as [[r|e] s']; simpl in *; now subst s'.
  - destruct (writeLog_frame t m d c s) as [added' [E F']].
    destruct (convenience_run t m d c s) as [E' _].
    exists (logger (this s)), added', (next_id s).
    split; [|split; [lia|split; [now left|exact F']]].
    rewrite <- Hsame. unfold bind.
    destruct (convenience t m d c s) as [[r|e] s']; simpl in *;
      rewrite E', E; reflexivity.
  - destruct (flush_frame s) as [added' [E F']].
    exists (logger (this s)), added', (next_id s).
    split; [|split; [lia|split; [now left|]]].
    + rewrite <- Hsame. unfold bind.
      destruct (flush s) as [[r|e] s']; simpl in *; now subst s'.
    + eapply logs_only_to_weaken; [|exact F']. intros i [].
Qed.

Lemma run_op_environmentDefault op s :
  environmentDefault (this (snd (run_op op s))) = environmentDefault (this s).
Proof.
  destruct (run_op_shape op s) as [l [added [n' [E _]]]]. now rewrite E.
Qed.

Lemma run_ops_environmentDefault ops s :
  environmentDefault (this (run_ops ops s)) = environmentDefault (this s).
Proof.
  revert s. induction ops as [|op ops IH]; intros s; [reflexivity|].
  simpl. now rewrite IH, run_op_environmentDefault.
Qed.

Lemma run_op_logLevel op s :
  logLevel (this (snd (run_op op s))) =
    next_level op (environmentDefault (this s)) (logLevel (this s)).
Proof.
  destruct (run_op_shape op s) as [l [added [n' [E _]]]]. now rewrite E.
Qed.

(** ** Construction *)

Section ConstructionFacts.

Variable superimport : string -> option LoggerClass.

(** Loading backends returns normally and touches only the registry and
    the world. *)
Lemma load_one_frame debug name s :
  exists l tr n,
    load_one superimport debug name s =
      (Return tt, mkState (set_logger l (this s)) tr n).
Proof.
  assert (Hs : forall s0 : State,
             s0 = mkState (set_logger (logger (this s0)) (this s0))
                          (trace s0) (next_id s0))
    by (intros; now rewrite set_logger_same, state_eta).
  unfold load_one, import_class, bind, try_catch, when, emit, ret, throw.
  destruct debug; cbv beta iota;
    (destruct (superimport _) as [cls|]; cbv beta iota;
     [rewrite addLogger_run; cbn [this trace next_id];
      destruct (map_has name (logger (this s)));
      [destruct (debugMode (this s))
      |destruct (cls_new_throws cls _)]|]);
    cbv beta iota; cbn [this trace next_id];
    try (eexists _, _, _; reflexivity);
    try (eexists _, _, _; rewrite (Hs s) at 1; reflexivity);
    eexists (logger (this s)), _, _; rewrite set_logger_same; reflexivity.
Qed.

Lemma load_all_frame debug names s :
  exists l tr n,
    forEach (load_one superimport debug) names s =
      (Return tt, mkState (set_logger l (this s)) tr n).
Proof.
  revert s. induction names as [|name names IH]; intros s.
  - exists (logger (this s)), (trace s), (next_id s). simpl. unfold ret.
    now rewrite set_logger_same, state_eta.
  - cbn [forEach]. unfold bind.
    destruct (load_one_frame debug name s) as [l [tr [n E]]]. rewrite E.
    destruct (IH (mkState (set_logger l (this s)) tr n)) as [l' [tr' [n' E']]].
    rewrite E'. now exists l', tr', n'.
Qed.

Lemma construct_frame conf env tr n :
  exists l tr' n',
    construct superimport conf env tr n =
      (Return tt, mkState (set_logger l (init_object conf env)) tr' n').
Proof.
  unfold construct, loadLogger.
  apply (load_all_frame _ _ (mkState (init_object conf env) tr n)).
Qed.

Lemma construct_logLevel conf env tr n :
  logLevel (this (snd (construct superimport conf env tr n))) =
    JS.Number (initial_level (match conf with
                              | Some c => c
                              | None => empty_conf
                              end)).
Proof.
  destruct (construct_frame conf env tr n) as [l [tr' [n' E]]].
  now rewrite E.
Qed.

Lemma construct_environmentDefault conf env tr n :
  environmentDefault (this (snd (construct superimport conf env tr n))) =
    environment_default (NODE_ENV env).
Proof.
  destruct (construct_frame conf env tr n) as [l [tr' [n' E]]].
  now rewrite E.
Qed.

End ConstructionFacts.

Lemma env_is_eq v tag : env_is v tag = true <-> v = Some tag.
Proof.
  destruct v as [s|]; simpl; [|split; discriminate].
  rewrite String.eqb_eq. split; congruence.
Qed.

(** Claim C5. [setLevel()] without argument sets the threshold to the
    default rank derived from the environment when the facade was built:
    3 for [production], 5 for [staging] and [qa], 1 for [test], 6 for any
    other or absent tag, whatever calls were made since construction. *)
Theorem setLevel_without_argument :
  forall (superimport : string -> option LoggerClass) (conf : option Conf)
         (env : ProcessEnv) (tr : list Effect) (n : nat) (ops : list Op),
    let s := run_ops ops (snd (construct superimport conf env tr n)) in
    let d := environment_default (NODE_ENV env) in
    setLevel None s = (Return This, with_level (JS.Number d) s) /\
    logLevel (this (snd (setLevel None s))) = JS.Number d /\
    (NODE_ENV env = Some "production" -> d = 3) /\
    (NODE_ENV env = Some "staging" -> d = 5) /\
    (NODE_ENV env = Some "qa" -> d = 5) /\
    (NODE_ENV env = Some "test" -> d = 1) /\
    (NODE_ENV env <> Some "production" -> NODE_ENV env <> Some "staging" ->
     NODE_ENV env <> Some "qa" -> NODE_ENV env <> Some "test" -> d = 6).
Proof.
  intros superimport conf env tr n ops s d.
  assert (Hd : environmentDefault (this s) = d).
  { unfold s. rewrite run_ops_environmentDefault.
    apply construct_environmentDefault. }
  split; [|split].
  - rewrite setLevel_reset by now left. now rewrite Hd.
  - rewrite setLevel_reset by now left. simpl. now rewrite Hd.
  - unfold d, environment_default.
    repeat split; try (intros ->; reflexivity).
    intros H1 H2 H3 H4.
    repeat match goal with
           | |- context [env_is ?v ?t] =>
               let E := fresh "E" in
               destruct (env_is v t) eqn:E;
               [apply env_is_eq in E; contradiction|clear E]
           end.
    reflexivity.
Qed.

Lemma setLevel_without_argument_witness :
  logLevel (this (snd (setLevel None
     (run_ops [OSetLevel (Some "debug")]
        (snd (construct no_loader None staging_env [] 0))))))
  = JS.Number 5.
Proof.
  destruct (setLevel_without_argument no_loader None staging_env [] 0
              [OSetLevel (Some "debug")]) as [_ [H [_ [H5 _]]]].
  rewrite H. rewrite (H5 eq_refl). reflexivity.
Defined.

Lemma next_level_no_reset op d d' v :
  is_reset op = false -> next_level op d v = next_level op d' v.
Proof.
  destruct op as [[name|]| | | | | |]; simpl; try reflexivity; try discriminate.
  now intros ->.
Qed.

Lemma run_ops_level_independent ops s1 s2 :
  forallb (fun op => negb (is_reset op)) ops = true ->
  logLevel (this s1) = logLevel (this s2) ->
  logLevel (this (run_ops ops s1)) = logLevel (this (run_ops ops s2)).
Proof.
  revert s1 s2. induction ops as [|op ops IH]; intros s1 s2 Hops Hl;
    [assumption|].
  simpl in Hops. apply andb_true_iff in Hops. destruct Hops as [Hop Hops].
  apply negb_true_iff in Hop.
  simpl. apply IH; [assumption|].
  rewrite !run_op_logLevel, Hl.
  now apply next_level_no_reset.
Qed.

(** Claim C10. When the configuration omits [level] or gives a falsy one,
    the threshold after construction is 3 ([sys]) in every environment; it
    stays independent of the environment through any calls other than a
    [setLevel] with absent or falsy argument; and a later [setLevel()]
    makes it the environment default. *)
Theorem constructor_default_threshold :
  forall (superimport : string -> option LoggerClass) (conf : option Conf)
         (env : ProcessEnv) (tr : list Effect) (n : nat),
    level_falsy conf ->
    let s := snd (construct superimport conf env tr n) in
    fst (construct superimport conf env tr n) = Return tt /\
    logLevel (this s) = JS.Number 3 /\
    getLevel s = (Return (Some "sys"), s) /\
    (forall (env' : ProcessEnv) (tr' : list Effect) (n' : nat) (ops : list Op),
        forallb (fun op => negb (is_reset op)) ops = true ->
        logLevel (this (run_ops ops s)) =
        logLevel (this (run_ops ops
                          (snd (construct superimport conf env' tr' n'))))) /\
    logLevel (this (snd (setLevel None s))) =
      JS.Number (environment_default (NODE_ENV env)).
Proof.
  intros superimport conf env tr n Hconf s.
  assert (H3 : forall e t m,
             logLevel (this (snd (construct superimport conf e t m)))
             = JS.Number 3).
  { intros e t m. rewrite construct_logLevel. f_equal.
    destruct conf as [c|]; [|reflexivity].
    unfold initial_level. destruct Hconf as [-> | ->]; reflexivity. }
  split; [|split; [|split; [|split]]].
  - destruct (construct_frame superimport conf env tr n) as [l [t [m E]]].
    now rewrite E.
  - apply H3.
  - unfold getLevel, ret. unfold s. rewrite H3. reflexivity.
  - intros env' tr' n' ops Hops.
    apply run_ops_level_independent; [assumption|].
    unfold s. now rewrite !H3.
  - rewrite setLevel_reset by now left. simpl.
    unfold s. now rewrite construct_environmentDefault.
Qed.

Lemma constructor_default_threshold_witness :
  level_falsy (Some (mkConf (Some 0) false None)) /\
  logLevel (this (snd (construct no_loader (Some (mkConf (Some 0) false None))
                         staging_env [] 0))) = JS.Number 3.
Proof.
  assert (H : level_falsy (Some (mkConf (Some 0) false None)))
    by (simpl; now right).
  split; [exact H|].
  exact (proj1 (proj2 (constructor_default_threshold no_loader
                         (Some (mkConf (Some 0) false None)) staging_env [] 0
                         H))).
Defined.

(** ** Dispatch and the threshold *)

Lemma filtered_ranked type r T :
  rank type = Some r -> filtered type (JS.Number T) = (T <? r).
Proof.
  intros H. unfold filtered. rewrite (level_lookup_rank _ _ H). simpl.
  apply rank_range in H. destruct (Z.eqb_spec r 0); [lia|reflexivity].
Qed.

Lemma filtered_unranked type T :
  rank type = None -> filtered type (JS.Number T) = false.
Proof.
  intros H. unfold filtered. rewrite (level_lookup_unranked _ H).
  now destruct (JS.is_prototype_member type).
Qed.

Lemma log_calls_deliveries debug ev clk lgs :
  log_calls (flat_map (delivery debug ev clk) lgs) =
    map (fun lg => (inst_id lg, ev)) lgs.
Proof.
  induction lgs as [|lg lgs IH]; [reflexivity|].
  cbn [flat_map map]. rewrite log_calls_app, IH.
  unfold delivery. now destruct debug.
Qed.

(** What [writeLog] does once the event passed the threshold test and the
    message could be rendered. *)
Lemma writeLog_emits type msg data clk s plain colored :
  filtered type (logLevel (this s)) = false ->
  rendering msg = Return (plain, colored) ->
  writeLog type msg data clk s =
    (let (o, s') :=
       forEach (write_to (debugMode (this s))
                  (mkEvent type plain colored data (now clk) (uptime clk)) clk)
               (instances s) s in
     match o with
     | Return _ => (Return Void, s')
     | Throw e => (Throw e, s')
     end).
Proof.
  intros Hf Hr. unfold writeLog, instances. rewrite Hf. run. rewrite Hr.
  simpl. destruct (forEach _ _ s) as [[[]|e] s']; reflexivity.
Qed.

(** Claim C1, counterexample. The level [error] has rank 1 and the
    threshold is 3, yet a registered backend is not invoked: in the facade
    [broken_first] the first backend throws on the event and the second is
    never reached; in the facade [two_healthy] a message that is neither a
    string nor an object with [colorfy] ends the call before any backend is
    reached. *)
Lemma passing_event_misses_a_backend :
  rank "error" = Some 1 /\
  logLevel (this broken_first) = JS.Number 3 /\
  ids broken_first = [0%nat; 1%nat] /\
  log_calls (trace (snd (writeLog "error" (MString "y") [] noon broken_first)))
  = [(0%nat, mkEvent "error" "y" "y" [] (now noon) (uptime noon))] /\
  logLevel (this two_healthy) = JS.Number 3 /\
  writeLog "error" MOtherTruthy [] noon two_healthy
  = (Throw (TypeError "msg.replace is not a function"), two_healthy).
Proof. repeat split. Qed.

(** Claim C1, amended. With a numeric threshold [T]: a recognized level of
    rank [r] above [T] makes [writeLog] return at once, the facade and the
    world untouched (no backend invoked, no event built); a recognized
    level with [r <= T], and any unrecognized type name, hands one and the
    same event to every registered backend, in registry order, provided
    the message renders (a string, an absent message, an object with
    [colorfy]) and every backend's [log] returns. *)
Theorem writeLog_threshold :
  forall (s : State) (type : string) (T : Z) (msg : Message)
         (data : list string) (clk : Clock),
    logLevel (this s) = JS.Number T ->
    (forall r, rank type = Some r -> T < r ->
       writeLog type msg data clk s = (Return This, s)) /\
    (forall plain colored,
       rendering msg = Return (plain, colored) ->
       let ev := mkEvent type plain colored data (now clk) (uptime clk) in
       let added := flat_map (delivery (debugMode (this s)) ev clk)
                             (instances s) in
       Forall (fun lg => cls_log_throws (inst_class lg) ev = false)
              (instances s) ->
       (rank type = None \/ exists r, rank type = Some r /\ r <= T) ->
       writeLog type msg data clk s = (Return Void, after s added) /\
       log_calls added = map (fun lg => (inst_id lg, ev)) (instances s)).
Proof.
  intros s type T msg data clk HT. split.
  - intros r Hr Hlt. unfold writeLog.
    rewrite HT, (filtered_ranked _ _ _ Hr).
    destruct (Z.ltb_spec T r); [reflexivity|lia].
  - intros plain colored Hrender ev added Hok Hpass.
    split; [|apply log_calls_deliveries].
    assert (Hf : filtered type (logLevel (this s)) = false).
    { rewrite HT. destruct Hpass as [Hnone|[r [Hr Hle]]].
      - now apply filtered_unranked.
      - rewrite (filtered_ranked _ _ _ Hr).
        destruct (Z.ltb_spec T r); [lia|reflexivity]. }
    rewrite (writeLog_emits _ _ _ _ _ _ _ Hf Hrender).
    fold ev. now rewrite (fan_out_all _ _ _ _ _ Hok).
Qed.

Lemma writeLog_threshold_witness :
  writeLog "debug" (MString "x") [] noon two_healthy
  = (Return This, two_healthy) /\
  log_calls (trace (snd (writeLog "error" (MString "y") [] noon two_healthy)))
  = [ (0%nat, mkEvent "error" "y" "y" [] (now noon) (uptime noon));
      (1%nat, mkEvent "error" "y" "y" [] (now noon) (uptime noon)) ].
Proof.
  destruct (writeLog_threshold two_healthy "debug" 3 (MString "x") [] noon
              eq_refl) as [H1 _].
  destruct (writeLog_threshold two_healthy "error" 3 (MString "y") [] noon
              eq_refl) as [_ H2].
  split.
  - apply (H1 7); [reflexivity|lia].
  - destruct (H2 "y" "y" eq_refl) as [E L].
    + repeat constructor.
    + right. exists 1. split; [reflexivity|lia].
    + rewrite E. exact L.
Defined.

(** ** A backend that throws *)

(** Claim C3, counterexample. The first of two backends throws on the
    event: [writeLog] and [error] end in that exception, and the second
    backend is never invoked. *)
Lemma backend_exception_silences_the_rest :
  let ev := mkEvent "error" "y" "y" [] (now noon) (uptime noon) in
  writeLog "error" (MString "y") [] noon broken_first
  = (Throw (BackendError 0), after broken_first [ELog 0 ev]) /\
  fst (error (MString "y") [] noon broken_first) = Throw (BackendError 0) /\
  count_logs 1 (trace (snd (error (MString "y") [] noon broken_first))) = 0%nat /\
  filtered "error" (logLevel (this broken_first)) = false.
Proof. repeat split. Qed.

(** Claim C3, amended. An exception thrown by a backend's [log] during the
    fan-out ends the fan-out: the backends registered before it have
    received the event, it was invoked itself, the backends registered
    after it receive nothing, and the exception reaches the caller of
    [writeLog] and of the convenience method. *)
Theorem backend_exception_aborts_fan_out :
  forall (s : State) (type : string) (msg : Message) (data : list string)
         (clk : Clock) (plain colored : string)
         (before behind : list Instance) (lg : Instance),
    let ev := mkEvent type plain colored data (now clk) (uptime clk) in
    filtered type (logLevel (this s)) = false ->
    rendering msg = Return (plain, colored) ->
    instances s = before ++ lg :: behind ->
    Forall (fun b => cls_log_throws (inst_class b) ev = false) before ->
    cls_log_throws (inst_class lg) ev = true ->
    let added := flat_map (delivery (debugMode (this s)) ev clk) before
                 ++ [ELog (inst_id lg) ev] in
    writeLog type msg data clk s
    = (Throw (BackendError (inst_id lg)), after s added) /\
    convenience type msg data clk s
    = (Throw (BackendError (inst_id lg)), after s added) /\
    log_calls added = map (fun b => (inst_id b, ev)) (before ++ [lg]).
Proof.
  intros s type msg data clk plain colored before behind lg ev
         Hf Hrender Hsplit Hbefore Hlg added.
  assert (Hw : writeLog type msg data clk s
               = (Throw (BackendError (inst_id lg)), after s added)).
  { rewrite (writeLog_emits _ _ _ _ _ _ _ Hf Hrender). fold ev.
    rewrite Hsplit.
    now rewrite (fan_out_interrupted _ _ _ _ _ _ _ Hbefore Hlg). }
  split; [exact Hw|split].
  - unfold convenience, bind. now rewrite Hw.
  - unfold added. rewrite log_calls_app, log_calls_deliveries, map_app.
    reflexivity.
Qed.

Lemma backend_exception_aborts_fan_out_witness :
  writeLog "error" (MString "y") [] noon broken_first
  = (Throw (BackendError 0),
     after broken_first
       [ELog 0 (mkEvent "error" "y" "y" [] (now noon) (uptime noon))]).
Proof.
  refine (proj1 (backend_exception_aborts_fan_out broken_first "error"
                   (MString "y") [] noon "y" "y" []
                   [mkInstance 1 Healthy] (mkInstance 0 Broken)
                   _ _ _ _ _)).
  - reflexivity.
  - reflexivity.
  - reflexivity.
  - constructor.
  - reflexivity.
Defined.

(** ** Adding a backend twice *)

(** Claim C4. A second [addLogger] under a registered name constructs
    nothing and leaves the registry (and the whole state) as it was; with
    diagnostics off it returns [this], with diagnostics on it ends in a
    [ReferenceError], the diagnostic line reading an [err] that does not
    exist. *)
Theorem addLogger_duplicate :
  forall (s : State) (name : string) (cls : LoggerClass),
    map_has name (logger (this s)) = true ->
    addLogger name cls s =
      ((if debugMode (this s) then Throw (ReferenceError "err")
        else Return This), s).
Proof.
  intros s name cls H. rewrite addLogger_run, H.
  now destruct (debugMode (this s)).
Qed.

Lemma addLogger_duplicate_witness :
  addLogger "console" Other two_healthy_debug
  = (Throw (ReferenceError "err"), two_healthy_debug) /\
  addLogger "console" Other two_healthy = (Return This, two_healthy).
Proof.
  split.
  - exact (addLogger_duplicate two_healthy_debug "console" Other eq_refl).
  - exact (addLogger_duplicate two_healthy "console" Other eq_refl).
Defined.

(** ** The two renderings of a message *)

Lemma params_shorter seen s rest :
  Ansi.params seen s = Some rest -> (String.length rest < String.length s)%nat.
Proof.
  revert seen. induction s as [|c s IH]; intros seen; simpl; [discriminate|].
  destruct (Ansi.is_digit c).
  - intros H. apply IH in H. lia.
  - destruct (Ascii.eqb c "m").
    + intros [= ->]. lia.
    + destruct (Ascii.eqb c ";"); [|discriminate].
      destruct seen; [|discriminate].
      intros H. apply IH in H. lia.
Qed.

Lemma match_here_shorter s rest :
  Ansi.match_here s = Some rest ->
  (String.length rest + 2 < String.length s)%nat.
Proof.
  destruct s as [|c [|b s]]; simpl; try discriminate.
  destruct (Ascii.eqb c Ansi.esc && Ascii.eqb b "["); [|discriminate].
  intros H. apply params_shorter in H. lia.
Qed.

(** Without a match anywhere, replacing changes nothing. *)
Lemma replace_all_no_escape fuel s :
  Ansi.has_escape s = false -> Ansi.replace_all fuel s = s.
Proof.
  revert s. induction fuel as [|fuel IH]; intros s; [reflexivity|].
  destruct s as [|c s]; [reflexivity|].
  cbn [Ansi.replace_all Ansi.has_escape].
  destruct (Ansi.match_here (String c s)); [discriminate|].
  intros H. now rewrite IH.
Qed.

Lemma replace_all_length fuel s :
  (String.length s <= fuel)%nat ->
  (String.length (Ansi.replace_all fuel s) <= String.length s)%nat /\
  (Ansi.has_escape s = true ->
   String.length (Ansi.replace_all fuel s) < String.length s)%nat.
Proof.
  revert s. induction fuel as [|fuel IH]; intros s Hlen.
  - destruct s; simpl in *; [split; [lia|discriminate]|lia].
  - destruct s as [|c s]; [simpl; split; [lia|discriminate]|].
    cbn [Ansi.replace_all Ansi.has_escape].
    destruct (Ansi.match_here (String c s)) as [rest|] eqn:E.
    + apply match_here_shorter in E.
      destruct (IH rest) as [H1 _]; [simpl in *; lia|].
      split; intros; lia.
    + destruct (IH s) as [H1 H2]; [simpl in *; lia|].
      simpl. split; [lia|]. intros H. apply H2 in H. lia.
Qed.

(** The fuel given by [Ansi.strip] never runs out: any greater amount gives
    the same result. *)
Lemma replace_all_enough_fuel fuel fuel' s :
  (String.length s <= fuel)%nat -> (String.length s <= fuel')%nat ->
  Ansi.replace_all fuel s = Ansi.replace_all fuel' s.
Proof.
  revert fuel' s. induction fuel as [|fuel IH]; intros fuel' s H H'.
  - destruct s; simpl in H; [|lia]. now destruct fuel'.
  - destruct s as [|c s]; [now destruct fuel'|].
    destruct fuel' as [|fuel']; [simpl in H'; lia|].
    cbn [Ansi.replace_all].
    destruct (Ansi.match_here (String c s)) as [rest|] eqn:E.
    + apply match_here_shorter in E. apply IH; simpl in *; lia.
    + f_equal. apply IH; simpl in *; lia.
Qed.

(** The equations of the replacement loop. *)
Lemma strip_equation c s :
  Ansi.strip (String c s) =
    match Ansi.match_here (String c s) with
    | Some rest => Ansi.strip rest
    | None => String c (Ansi.strip s)
    end.
Proof.
  unfold Ansi.strip. cbn [String.length Ansi.replace_all].
  destruct (Ansi.match_here (String c s)) as [rest|] eqn:E.
  - apply match_here_shorter in E.
    apply replace_all_enough_fuel; simpl in *; lia.
  - reflexivity.
Qed.

Lemma strip_no_escape s : Ansi.has_escape s = false -> Ansi.strip s = s.
Proof. apply replace_all_no_escape. Qed.

Lemma strip_escape s : Ansi.has_escape s = true -> Ansi.strip s <> s.
Proof.
  intros H E.
  destruct (replace_all_length (String.length s) s (le_n _)) as [_ Hlt].
  apply Hlt in H. unfold Ansi.strip in E. rewrite E in H. lia.
Qed.

Lemma fan_out_carries debug ev clk lgs s :
  exists added,
    snd (forEach (write_to debug ev clk) lgs s) = after s added /\
    Forall (carries ev) added.
Proof.
  revert s. induction lgs as [|lg lgs IH]; intros s.
  - exists []. simpl. now rewrite after_nil.
  - cbn [forEach]. unfold bind. rewrite write_to_run.
    destruct (cls_log_throws (inst_class lg) ev).
    + eexists. split; [reflexivity|]. repeat constructor.
    + destruct (IH (after s (delivery debug ev clk lg))) as [added [E F]].
      destruct (forEach _ lgs _) as [[[]|e] s']; simpl in E; subst s';
        (exists (delivery debug ev clk lg ++ added);
         split; [simpl; now rewrite after_after|];
         apply Forall_app; split; [|exact F];
         unfold delivery; destruct debug; repeat constructor).
Qed.

(** Every event a call of [writeLog] hands out is built from the two
    renderings of its message. *)
Lemma writeLog_carries type msg data clk s :
  exists added,
    snd (writeLog type msg data clk s) = after s added /\
    forall i ev, In (ELog i ev) added ->
      exists plain colored,
        rendering msg = Return (plain, colored) /\
        ev = mkEvent type plain colored data (now clk) (uptime clk).
Proof.
  unfold writeLog.
  destruct (filtered type (logLevel (this s))).
  - exists []. simpl. rewrite after_nil. split; [reflexivity|intros ? ? []].
  - run. destruct (rendering msg) as [[p c]|e].
    + destruct (fan_out_carries (debugMode (this s))
                  (mkEvent type p c data (now clk) (uptime clk)) clk
                  (map snd (logger (this s))) s) as [added [E F]].
      exists added. split.
      * simpl. destruct (forEach _ _ s) as [[[]|e] s']; simpl in *; exact E.
      * intros i ev Hin. exists p, c. split; [reflexivity|].
        rewrite Forall_forall in F. exact (F _ Hin).
    + exists []. simpl. rewrite after_nil. split; [reflexivity|intros ? ? []].
Qed.

(** Claim C6. The plain rendering of a string message is meant to be the
    message without its colour and style sequences, and the code misses
    some of them.  The message made of the sequence that resets the style
    and makes it bold, escape, bracket, semicolon, 1, m, and the letter x
    reads x once its style sequence is taken out; yet [writeLog] hands it
    to every backend with the sequence left in [msg], which is equal to
    [cmsg]: the pattern of the code wants a digit before every
    semicolon. *)
Theorem plain_rendering_keeps_a_style_sequence :
  let ev := mkEvent "error" reset_bold_x reset_bold_x [] (now noon) (uptime noon) in
  SpecSgr.match_here reset_bold_x = Some "x"%string /\
  SpecSgr.strip reset_bold_x = "x"%string /\
  Ansi.match_here reset_bold_x = None /\
  rendering (MString reset_bold_x) = Return (reset_bold_x, reset_bold_x) /\
  writeLog "error" (MString reset_bold_x) [] noon two_healthy
  = (Return Void, after two_healthy [ELog 0 ev; ELog 1 ev]) /\
  ev_msg ev <> SpecSgr.strip (ev_cmsg ev).
Proof.
  cbv zeta. repeat (split; [reflexivity|]).
  cbn [ev_msg ev_cmsg]. intros H. vm_compute in H. discriminate.
Qed.

Example strip_red_alert : Ansi.strip red_alert = "alert"%string.
Proof. reflexivity. Qed.

Example strip_keeps_plain_text :
  Ansi.strip "50% of [m]emory; 3m left" = "50% of [m]emory; 3m left"%string.
Proof. reflexivity. Qed.

Example strip_requires_digits_before_semicolon :
  Ansi.strip (String Ansi.esc "[;1mx") = String Ansi.esc "[;1mx".
Proof. reflexivity. Qed.


(** ** Flush *)

Lemma flush_each_all lgs acc s :
  Forall flush_returns lgs ->
  flush_each lgs acc s =
    (Return (acc ++ flush_promises lgs), after s (flush_effects lgs)).
Proof.
  intros H. revert acc s.
  induction H as [|lg lgs Hlg _ IH]; intros acc s.
  - simpl. unfold ret, flush_effects. simpl.
    now rewrite app_nil_r, after_nil.
  - unfold flush_returns in Hlg.
    cbn [flush_each flush_promises]. unfold flush_effects, has_flush.
    cbn [filter].
    destruct (cls_flush (inst_class lg)) as [[|p]|]; [congruence| |].
    + run. rewrite IH. unfold flush_effects, after. simpl.
      now rewrite <- !app_assoc.
    + apply IH.
Qed.

(** A [flush] that throws instead of returning a promise ends the loop. *)
Lemma flush_each_interrupted before lg behind acc s :
  Forall flush_returns before ->
  cls_flush (inst_class lg) = Some FlushThrows ->
  flush_each (before ++ lg :: behind) acc s =
    (Throw (BackendError (inst_id lg)),
     after s (flush_effects before ++ [EFlush (inst_id lg)])).
Proof.
  intros H Hlg. revert acc s.
  induction H as [|b before Hb _ IH]; intros acc s.
  - cbn [app flush_each]. rewrite Hlg. reflexivity.
  - unfold flush_returns in Hb.
    cbn [app flush_each]. unfold flush_effects, has_flush. cbn [filter].
    destruct (cls_flush (inst_class b)) as [[|p]|]; [congruence| |].
    + run. rewrite IH. unfold flush_effects, after. simpl.
      now rewrite <- !app_assoc.
    + apply IH.
Qed.

Lemma flush_calls_effects lgs :
  flush_calls (flush_effects lgs) = map inst_id (filter has_flush lgs).
Proof.
  unfold flush_effects.
  induction (map inst_id (filter has_flush lgs)) as [|i l IH];
    [reflexivity|].
  simpl. now rewrite IH.
Qed.

Lemma list_min_le t ts : (list_min t ts <= t)%nat.
Proof. induction ts as [|x ts IH]; simpl; lia. Qed.

Lemma list_min_lower t ts x : In x ts -> (list_min t ts <= x)%nat.
Proof.
  induction ts as [|y ts IH]; simpl; [contradiction|].
  intros [->|H]; [lia|]. apply IH in H. lia.
Qed.

Lemma list_min_In t ts : list_min t ts = t \/ In (list_min t ts) ts.
Proof.
  induction ts as [|y ts IH]; simpl; [now left|].
  destruct (Nat.min_spec y (list_min t ts)) as [[_ ->]|[_ ->]]; [tauto|].
  destruct IH; auto.
Qed.

Lemma list_max_upper ts x : In x ts -> (x <= list_max ts)%nat.
Proof.
  induction ts as [|y ts IH]; simpl; [contradiction|].
  intros [->|H]; [lia|]. apply IH in H. lia.
Qed.

Lemma rejections_In ps t :
  In t (rejections ps) <->
  exists p, In p ps /\ settlement p = Rejected /\ settles_at p = t.
Proof.
  induction ps as [|p ps IH]; simpl.
  - split; [contradiction|intros [? [[] _]]].
  - destruct (settlement p) eqn:E; simpl; rewrite IH; split.
    + intros [q [Hin H]]. exists q. tauto.
    + intros [q [[<-|Hin] [H1 H2]]]; [congruence|]. now exists q.
    + intros [<-|[q [Hin H]]]; [now exists p; auto|exists q; tauto].
    + intros [q [[<-|Hin] [H1 H2]]]; [now left|right; now exists q].
Qed.

(** [Promise.all], characterized. *)
Lemma promise_all_fulfilled ps :
  Forall (fun p => settlement p = Fulfilled) ps ->
  settlement (promise_all ps) = Fulfilled /\
  Forall (fun p => (settles_at p <= settles_at (promise_all ps))%nat) ps.
Proof.
  intros H. unfold promise_all.
  assert (E : rejections ps = []).
  { induction H as [|p ps Hp _ IH]; simpl; [reflexivity|]. now rewrite Hp. }
  rewrite E. simpl. split; [reflexivity|].
  apply Forall_forall. intros p Hin. apply list_max_upper.
  now apply in_map.
Qed.

Lemma promise_all_rejected ps :
  Exists (fun p => settlement p = Rejected) ps ->
  settlement (promise_all ps) = Rejected /\
  (exists p, In p ps /\ settlement p = Rejected /\
             settles_at p = settles_at (promise_all ps)) /\
  (forall p, In p ps -> settlement p = Rejected ->
             (settles_at (promise_all ps) <= settles_at p)%nat).
Proof.
  intros H. apply Exists_exists in H. destruct H as [q [Hq Hrej]].
  assert (Hin : In (settles_at q) (rejections ps))
    by (apply rejections_In; now exists q).
  unfold promise_all.
  destruct (rejections ps) as [|t ts] eqn:E; [contradiction|].
  simpl. split; [reflexivity|split].
  - apply rejections_In. rewrite E.
    destruct (list_min_In t ts); [left; congruence|now right].
  - intros p Hp Hr.
    assert (Hp' : In (settles_at p) (t :: ts))
      by (rewrite <- E; apply rejections_In; now exists p).
    destruct Hp' as [<-|Hp']; [apply list_min_le|now apply list_min_lower].
Qed.

(** Claim C7, counterexample. Both backends are asked to flush; the
    aggregate promise is rejected at instant 1, when the second backend's
    flush fails, while the first backend's flush is still running and only
    completes at instant 5. *)
Lemma flush_fails_before_all_complete :
  flush slow_and_failing
  = (Return (mkPromise 1 Rejected),
     after slow_and_failing [EFlush 0; EFlush 1]) /\
  flush_promises (instances slow_and_failing)
  = [mkPromise 5 Fulfilled; mkPromise 1 Rejected] /\
  (settles_at (mkPromise 1 Rejected) < settles_at (mkPromise 5 Fulfilled))%nat.
Proof. repeat split. simpl. lia. Qed.

(** Either every [flush] that a backend has returns, or some backend is
    the first whose [flush] throws. *)
Lemma all_return_or_first_thrower lgs :
  Forall flush_returns lgs \/
  exists before lg behind,
    lgs = before ++ lg :: behind /\ Forall flush_returns before /\
    cls_flush (inst_class lg) = Some FlushThrows.
Proof.
  induction lgs as [|lg lgs IH]; [left; constructor|].
  destruct (cls_flush (inst_class lg)) as [[|p]|] eqn:E.
  - right. exists [], lg, lgs. repeat split; [constructor|exact E].
  - destruct IH as [IH|[before [lg' [behind [-> [Hb Hlg]]]]]].
    + left. constructor; [unfold flush_returns; congruence|exact IH].
    + right. exists (lg :: before), lg', behind.
      repeat split; [|exact Hlg].
      constructor; [unfold flush_returns; congruence|exact Hb].
  - destruct IH as [IH|[before [lg' [behind [-> [Hb Hlg]]]]]].
    + left. constructor; [unfold flush_returns; congruence|exact IH].
    + right. exists (lg :: before), lg', behind.
      repeat split; [|exact Hlg].
      constructor; [unfold flush_returns; congruence|exact Hb].
Qed.

(** Claim C7, amended. [flush()] calls [flush()] on the registered backends
    that have one, in registry order, and skips the others.  If one of
    these calls throws instead of returning a promise, [flush()] throws that
    exception on the spot and returns no promise; the capable backends
    before it have been asked, the ones behind it are not asked.  Otherwise
    exactly the capable backends have been asked.  Then, if every flush
    succeeds, the aggregate succeeds, and not before the last of them has
    completed; if some flush fails, the aggregate fails, at the instant of
    the earliest failure and without waiting for the flushes still running.
    One of the two cases, a first call that throws or none, always
    applies. *)
Theorem flush_spec :
  forall s : State,
    (Forall flush_returns (instances s) ->
     let ps := flush_promises (instances s) in
     flush s = (Return (promise_all ps), after s (flush_effects (instances s))) /\
     flush_calls (flush_effects (instances s))
     = map inst_id (filter has_flush (instances s)) /\
     (Forall (fun p => settlement p = Fulfilled) ps ->
      settlement (promise_all ps) = Fulfilled /\
      Forall (fun p => (settles_at p <= settles_at (promise_all ps))%nat) ps) /\
     (Exists (fun p => settlement p = Rejected) ps ->
      settlement (promise_all ps) = Rejected /\
      (exists p, In p ps /\ settlement p = Rejected /\
                 settles_at p = settles_at (promise_all ps)) /\
      (forall p, In p ps -> settlement p = Rejected ->
                 (settles_at (promise_all ps) <= settles_at p)%nat))) /\
    (forall (before behind : list Instance) (lg : Instance),
        instances s = before ++ lg :: behind ->
        Forall flush_returns before ->
        cls_flush (inst_class lg) = Some FlushThrows ->
        flush s = (Throw (BackendError (inst_id lg)),
                   after s (flush_effects before ++ [EFlush (inst_id lg)])) /\
        flush_calls (flush_effects before ++ [EFlush (inst_id lg)])
        = map inst_id (filter has_flush before) ++ [inst_id lg]) /\
    (Forall flush_returns (instances s) \/
     exists before lg behind,
       instances s = before ++ lg :: behind /\ Forall flush_returns before /\
       cls_flush (inst_class lg) = Some FlushThrows).
Proof.
  intros s. split; [|split].
  - intros H ps. split; [|split; [|split]].
    + unfold flush, bind, ret. fold (instances s).
      now rewrite (flush_each_all _ _ _ H).
    + apply flush_calls_effects.
    + apply promise_all_fulfilled.
    + apply promise_all_rejected.
  - intros before behind lg Hsplit Hbefore Hlg. split.
    + unfold flush, bind. fold (instances s). rewrite Hsplit.
      now rewrite (flush_each_interrupted _ _ _ _ _ Hbefore Hlg).
    + rewrite flush_calls_app, flush_calls_effects. reflexivity.
  - apply all_return_or_first_thrower.
Qed.

Lemma flush_spec_witness :
  (Forall flush_returns (instances slow_and_failing) /\
   flush slow_and_failing
   = (Return (mkPromise 1 Rejected),
      after slow_and_failing [EFlush 0; EFlush 1])) /\
  flush flush_throws_midway
  = (Throw (BackendError 1), after flush_throws_midway [EFlush 0; EFlush 1]).
Proof.
  assert (H : Forall flush_returns (instances slow_and_failing))
    by (repeat constructor; discriminate).
  assert (H' : Forall flush_returns [mkInstance 0 Healthy])
    by (repeat constructor; discriminate).
  split; [split; [exact H|]|].
  - exact (proj1 (proj1 (flush_spec slow_and_failing) H)).
  - exact (proj1 (proj1 (proj2 (flush_spec flush_throws_midway))
                    [mkInstance 0 Healthy] [mkInstance 2 Healthy]
                    (mkInstance 1 Net) eq_refl H' eq_refl)).
Defined.

(** ** Removing a backend *)

Lemma run_op_unregistered i op s :
  unregistered i s ->
  unregistered i (snd (run_op op s)) /\
  count_logs i (trace (snd (run_op op s))) = count_logs i (trace s).
Proof.
  intros [Hlt Hni].
  destruct (run_op_shape op s) as [l [added [n' [E [Hn [Hids F]]]]]].
  rewrite E. unfold unregistered, ids, instances. cbn [this trace next_id logger].
  split; [split; [lia|]|].
  - intros Hin. destruct (Hids _ Hin) as [H|H]; [contradiction|lia].
  - rewrite count_logs_app, (count_logs_elsewhere _ _ _ F Hni). lia.
Qed.

Lemma run_ops_unregistered i ops s :
  unregistered i s ->
  count_logs i (trace (run_ops ops s)) = count_logs i (trace s).
Proof.
  revert s. induction ops as [|op ops IH]; intros s H; [reflexivity|].
  simpl. destruct (run_op_unregistered i op s H) as [H' E].
  now rewrite (IH _ H'), E.
Qed.

Lemma NoDup_map_eq {A B} (f : A -> B) l a b :
  NoDup (map f l) -> In a l -> In b l -> f a = f b -> a = b.
Proof.
  induction l as [|x l IH]; simpl; [contradiction|].
  intros Hnd. inversion Hnd as [|? ? Hx Hl]; subst.
  intros [->|Ha] [->|Hb] E; auto.
  - exfalso. apply Hx. rewrite E. now apply in_map.
  - exfalso. apply Hx. rewrite <- E. now apply in_map.
Qed.

Lemma removeLogger_unregisters name inst s :
  registry_ok s ->
  map_get name (logger (this s)) = Some inst ->
  unregistered (inst_id inst) (snd (removeLogger name s)).
Proof.
  intros [Hnd Hlt] Hget. apply map_get_In in Hget.
  rewrite removeLogger_run. unfold unregistered, ids, instances in *.
  cbn [snd this next_id logger set_logger]. rewrite map_map in *. split.
  - rewrite Forall_forall in Hlt. apply Hlt.
    apply in_map_iff. now exists (name, inst).
  - intros Hin. apply in_map_iff in Hin. destruct Hin as [kv [E Hin]].
    apply map_delete_In in Hin. destruct Hin as [Hin Hne].
    assert (kv = (name, inst))
      by (eapply NoDup_map_eq; [exact Hnd| | |]; eassumption).
    subst kv. now apply Hne.
Qed.

Lemma count_logs_deliveries i debug ev clk lgs :
  count_logs i (flat_map (delivery debug ev clk) lgs) =
    count_occ Nat.eq_dec (map inst_id lgs) i.
Proof.
  induction lgs as [|lg lgs IH]; [reflexivity|].
  cbn [flat_map map]. rewrite count_logs_app, IH.
  unfold delivery. simpl.
  destruct (Nat.eq_dec (inst_id lg) i) as [->|Hne].
  - rewrite Nat.eqb_refl. now destruct debug.
  - destruct (Nat.eqb_spec (inst_id lg) i); [contradiction|].
    now destruct debug.
Qed.

(** The backends [others] return on the event; whatever the backend [b]
    registered behind them does, it is handed the event once. *)
Lemma fan_out_reaches_last debug ev clk others b s :
  Forall (fun lg => cls_log_throws (inst_class lg) ev = false) others ->
  ~ In (inst_id b) (map inst_id others) ->
  exists added,
    snd (forEach (write_to debug ev clk) (others ++ [b]) s) = after s added /\
    count_logs (inst_id b) added = 1%nat.
Proof.
  intros Hok Hni.
  assert (H0 : count_logs (inst_id b) (flat_map (delivery debug ev clk) others)
               = 0%nat).
  { rewrite count_logs_deliveries. now apply count_occ_not_In. }
  destruct (cls_log_throws (inst_class b) ev) eqn:Hb.
  - rewrite (fan_out_interrupted _ _ _ _ _ [] _ Hok Hb).
    eexists. split; [reflexivity|].
    rewrite count_logs_app, H0. simpl. now rewrite Nat.eqb_refl.
  - rewrite fan_out_all.
    + eexists. split; [reflexivity|].
      rewrite flat_map_app, count_logs_app, H0. simpl.
      rewrite Nat.eqb_refl. now destruct debug.
    + apply Forall_app. split; [exact Hok|]. now repeat constructor.
Qed.

Lemma run_delivered_to_last ds :
  forall (s0 s1 : State) (b : Instance),
    logLevel (this s1) = logLevel (this s0) ->
    instances s1 = instances s0 ++ [b] ->
    ~ In (inst_id b) (ids s0) ->
    forallb (delivered s0) ds = true ->
    this (run_ops (map as_op ds) s1) = this s1 /\
    next_id (run_ops (map as_op ds) s1) = next_id s1 /\
    count_logs (inst_id b) (trace (run_ops (map as_op ds) s1))
    = (count_logs (inst_id b) (trace s1) + List.length ds)%nat.
Proof.
  induction ds as [|d ds IH]; intros s0 s1 b Hlevel Hinst Hni Hall.
  - simpl. repeat split. lia.
  - simpl in Hall. apply andb_true_iff in Hall. destruct Hall as [Hd Hall].
    unfold delivered, event_of in Hd.
    apply andb_true_iff in Hd. destruct Hd as [Hf Hok].
    apply negb_true_iff in Hf. rewrite <- Hlevel in Hf.
    destruct (rendering (d_msg d)) as [[p c]|e] eqn:Hr; [|discriminate].
    assert (Hok' : Forall (fun lg => cls_log_throws (inst_class lg)
                             (mkEvent (d_type d) p c (d_data d)
                                (now (d_clk d)) (uptime (d_clk d))) = false)
                          (instances s0)).
    { apply Forall_forall. intros lg Hin.
      rewrite forallb_forall in Hok. apply Hok in Hin.
      now apply negb_true_iff in Hin. }
    destruct (fan_out_reaches_last (debugMode (this s1)) _ (d_clk d) _ b s1
                Hok' Hni) as [added [E Hone]].
    assert (Hstep : snd (run_op (as_op d) s1) = after s1 added).
    { unfold as_op, run_op, forget, bind.
      rewrite (writeLog_emits _ _ _ _ _ _ _ Hf Hr), Hinst.
      destruct (forEach _ _ s1) as [[[]|e] s']; simpl in *; exact E. }
    cbn [map run_ops]. rewrite Hstep.
    destruct (IH s0 (after s1 added) b Hlevel Hinst Hni Hall)
      as [H1 [H2 H3]].
    rewrite H1, H2, H3. repeat split.
    cbn [after trace List.length]. rewrite count_logs_app, Hone. lia.
Qed.

Lemma addLogger_fresh name cls s :
  registry_ok s ->
  map_has name (logger (this s)) = false ->
  cls_new_throws cls (JS.get_property (conf_logger (this s)) name) = false ->
  let s1 := snd (addLogger name cls s) in
  fst (addLogger name cls s) = Return This /\
  logger (this s1) = logger (this s) ++ [(name, mkInstance (next_id s) cls)] /\
  logLevel (this s1) = logLevel (this s) /\
  count_logs (next_id s) (trace s1) = count_logs (next_id s) (trace s) /\
  registry_ok s1.
Proof.
  intros [Hnd Hlt] Hhas Hnew. rewrite addLogger_run, Hhas, Hnew.
  cbn [fst snd this trace next_id]. rewrite (map_set_fresh _ _ _ Hhas).
  split; [reflexivity|split; [reflexivity|split; [reflexivity|split]]].
  - rewrite count_logs_app. simpl. lia.
  - unfold registry_ok, ids, instances in *.
    cbn [this next_id logger set_logger].
    rewrite !map_app. cbn [map snd inst_id]. split.
    + apply NoDup_app; [assumption|repeat constructor; intros []|].
      intros i Hi [<-|[]]. rewrite Forall_forall in Hlt.
      apply Hlt in Hi. lia.
    + apply Forall_app. split; [|repeat constructor].
      eapply Forall_impl; [|exact Hlt]. simpl. intros; lia.
Qed.

Lemma map_get_last {A} name (v : A) m :
  map_has name m = false -> map_get name (m ++ [(name, v)]) = Some v.
Proof.
  unfold map_has. induction m as [|[k v'] m IH]; simpl.
  - now rewrite String.eqb_refl.
  - destruct (String.eqb k name); simpl; [discriminate|]. exact IH.
Qed.

(** Claim C8. [removeLogger] on a name that is not registered returns and
    leaves the state as it was.  After [removeLogger] on a registered name,
    no later call, whatever it is, hands an event to the instance that was
    registered under it.  So a backend that is registered, is sent [N]
    events (dispatches above the threshold that get past the backends
    registered before it) and is removed has recorded exactly [N] events,
    and keeps that count through any later calls. *)
Theorem removeLogger_spec :
  forall (s : State) (name : string),
    (map_has name (logger (this s)) = false ->
     removeLogger name s = (Return This, s)) /\
    (forall (inst : Instance) (later : list Op),
        registry_ok s ->
        map_get name (logger (this s)) = Some inst ->
        fst (removeLogger name s) = Return This /\
        map_has name (logger (this (snd (removeLogger name s)))) = false /\
        count_logs (inst_id inst)
                   (trace (run_ops later (snd (removeLogger name s))))
        = count_logs (inst_id inst) (trace s)) /\
    (forall (cls : LoggerClass) (ds : list Dispatch) (later : list Op),
        registry_ok s ->
        map_has name (logger (this s)) = false ->
        cls_new_throws cls (JS.get_property (conf_logger (this s)) name)
        = false ->
        forallb (delivered s) ds = true ->
        let s1 := snd (addLogger name cls s) in
        let s2 := run_ops (map as_op ds) s1 in
        let s3 := snd (removeLogger name s2) in
        map_get name (logger (this s1)) = Some (mkInstance (next_id s) cls) /\
        count_logs (next_id s) (trace (run_ops later s3))
        = (count_logs (next_id s) (trace s) + List.length ds)%nat).
Proof.
  intros s name.
  assert (Hpart2 : forall s0 inst later,
             registry_ok s0 ->
             map_get name (logger (this s0)) = Some inst ->
             count_logs (inst_id inst)
                        (trace (run_ops later (snd (removeLogger name s0))))
             = count_logs (inst_id inst) (trace s0)).
  { intros s0 inst later Hok Hget.
    rewrite (run_ops_unregistered _ _ _
               (removeLogger_unregisters _ _ _ Hok Hget)).
    reflexivity. }
  split; [|split].
  - intros H. rewrite removeLogger_run, (map_delete_absent _ _ H).
    now rewrite set_logger_same, state_eta.
  - intros inst later Hok Hget. split; [reflexivity|split].
    + rewrite removeLogger_run. cbn [snd this logger set_logger].
      unfold map_has, map_delete.
      destruct (existsb _ _) eqn:E; [|reflexivity].
      apply existsb_exists in E. destruct E as [kv [Hin E]].
      apply filter_In in Hin. destruct Hin as [_ Hne].
      rewrite E in Hne. discriminate.
    + now apply Hpart2.
  - intros cls ds later Hok Hhas Hnew Hds s1 s2 s3.
    destruct (addLogger_fresh name cls s Hok Hhas Hnew)
      as [_ [Hreg [Hlevel [Hcount Hok1]]]].
    fold s1 in Hreg, Hlevel, Hcount, Hok1.
    assert (Hget : map_get name (logger (this s1))
                   = Some (mkInstance (next_id s) cls))
      by (rewrite Hreg; now apply map_get_last).
    split; [exact Hget|].
    assert (Hinst : instances s1 = instances s ++ [mkInstance (next_id s) cls])
      by (unfold instances; now rewrite Hreg, map_app).
    assert (Hni : ~ In (next_id s) (ids s)).
    { intros Hin. destruct Hok as [_ Hlt]. rewrite Forall_forall in Hlt.
      apply Hlt in Hin. lia. }
    destruct (run_delivered_to_last ds s s1 (mkInstance (next_id s) cls)
                Hlevel Hinst Hni Hds) as [Hthis [Hnext Hn]].
    fold s2 in Hthis, Hnext, Hn. cbn [inst_id] in Hn.
    assert (Hok2 : registry_ok s2).
    { unfold registry_ok, ids, instances. rewrite Hthis, Hnext. exact Hok1. }
    assert (Hget2 : map_get name (logger (this s2))
                    = Some (mkInstance (next_id s) cls))
      by now rewrite Hthis.
    pose proof (Hpart2 s2 (mkInstance (next_id s) cls) later Hok2 Hget2)
      as Hlater.
    cbn [inst_id] in Hlater. unfold s3.
    rewrite Hlater, Hn, Hcount. reflexivity.
Qed.

Lemma removeLogger_spec_witness :
  removeLogger "mail" two_healthy = (Return This, two_healthy) /\
  count_logs 1 (trace (run_ops [OWriteLog "error" (MString "late") [] noon]
                         (snd (removeLogger "file" two_healthy))))
  = count_logs 1 (trace two_healthy) /\
  count_logs 2
    (trace (run_ops [OWriteLog "error" (MString "late") [] noon;
                     OAddLogger "mail" Broken;
                     OWriteLog "error" (MString "later") [] noon]
              (snd (removeLogger "mail"
                      (run_ops (map as_op three_dispatches)
                               (snd (addLogger "mail" Healthy two_healthy)))))))
  = 3%nat.
Proof.
  assert (Hok : registry_ok two_healthy).
  { split.
    - repeat constructor; simpl; intuition discriminate.
    - repeat constructor. }
  destruct (removeLogger_spec two_healthy "mail") as [H1 [_ H3]].
  destruct (removeLogger_spec two_healthy "file") as [_ [H2 _]].
  split; [apply H1; reflexivity|split].
  - apply (H2 (mkInstance 1 Healthy)); [exact Hok|reflexivity].
  - apply (H3 Healthy three_dispatches); [exact Hok|reflexivity..].
Defined.

(** ** The scan against the pattern as a language *)

Lemma string_app_assoc (a b c : string) :
  ((a ++ b) ++ c = a ++ (b ++ c))%string.
Proof. induction a as [|x a IH]; simpl; [reflexivity|now rewrite IH]. Qed.

Lemma params_skips_digits ds tail seen :
  digits ds = true -> ds <> EmptyString ->
  Ansi.params seen (ds ++ tail)%string = Ansi.params true tail.
Proof.
  revert seen. induction ds as [|c ds IH]; intros seen Hd Hne;
    [contradiction|].
  simpl in Hd. apply andb_true_iff in Hd. destruct Hd as [Hc Hd].
  simpl. rewrite Hc. destruct ds as [|c' ds']; [reflexivity|].
  apply IH; [assumption|discriminate].
Qed.

Lemma params_skips_digits_seen ds tail :
  digits ds = true ->
  Ansi.params true (ds ++ tail)%string = Ansi.params true tail.
Proof.
  intros Hd. destruct ds as [|c ds]; [reflexivity|].
  apply params_skips_digits; [assumption|discriminate].
Qed.

Lemma params_complete p :
  Params p -> forall rest, Ansi.params false (p ++ rest)%string = Some rest.
Proof.
  induction 1 as [ds Hd|ds p Hd Hne _ IH]; intros rest.
  - rewrite string_app_assoc. destruct ds as [|c ds]; [reflexivity|].
    rewrite params_skips_digits by (assumption || discriminate).
    reflexivity.
  - rewrite !string_app_assoc.
    rewrite params_skips_digits by assumption.
    simpl. apply IH.
Qed.

Lemma params_sound s :
  forall seen rest,
    Ansi.params seen s = Some rest ->
    exists p, s = (p ++ rest)%string /\
              if seen then After_digit p else Params p.
Proof.
  induction s as [|c s IH]; intros seen rest; simpl; [discriminate|].
  destruct (Ansi.is_digit c) eqn:Hc.
  - intros H. destruct (IH _ _ H) as [p [-> [ds [Hd Hp]]]].
    exists (String c p). split; [reflexivity|].
    assert (Hcd : digits (String c ds) = true) by (simpl; now rewrite Hc).
    destruct Hp as [->|[r [Hr ->]]].
    + destruct seen.
      * exists (String c ds). split; [assumption|now left].
      * apply (Params_end (String c ds)). assumption.
    + destruct seen.
      * exists (String c ds). split; [assumption|]. right. now exists r.
      * apply (Params_group (String c ds) r); [assumption|discriminate|assumption].
  - destruct (Ascii.eqb_spec c "m") as [->|_].
    + intros [= ->]. exists "m"%string. split; [reflexivity|].
      destruct seen.
      * exists EmptyString. split; [reflexivity|now left].
      * apply (Params_end EmptyString). reflexivity.
    + destruct (Ascii.eqb_spec c ";") as [->|_]; [|discriminate].
      destruct seen; [|discriminate].
      intros H. destruct (IH _ _ H) as [p [-> Hp]].
      exists (String ";" p). split; [reflexivity|].
      exists EmptyString. split; [reflexivity|]. right. now exists p.
Qed.

(** The scan finds a match at the head of [s] exactly when a string of the
    language starts [s], and returns what follows it. *)
Lemma match_here_spec s rest :
  Ansi.match_here s = Some rest <->
  exists m, Escape m /\ s = (m ++ rest)%string.
Proof.
  split.
  - destruct s as [|c [|b s]]; simpl; try discriminate.
    destruct (Ascii.eqb_spec c Ansi.esc) as [->|_]; [|discriminate].
    destruct (Ascii.eqb_spec b "[") as [->|_]; [|discriminate].
    simpl. intros H. destruct (params_sound _ _ _ H) as [p [-> Hp]].
    exists (String Ansi.esc (String "[" p)). split; [now constructor|reflexivity].
  - intros [m [[p Hp] ->]]. simpl. now apply params_complete.
Qed.

(** At most one string of the language starts a given string: the longest
    match and the first match are the same. *)
Lemma escape_prefix_unique m1 m2 r1 r2 :
  Escape m1 -> Escape m2 -> (m1 ++ r1 = m2 ++ r2)%string -> r1 = r2.
Proof.
  intros H1 H2 E.
  assert (A : Ansi.match_here (m1 ++ r1)%string = Some r1)
    by (apply match_here_spec; now exists m1).
  assert (B : Ansi.match_here (m1 ++ r1)%string = Some r2)
    by (apply match_here_spec; exists m2; now split).
  congruence.
Qed.

(** ** Reachable registries *)

Lemma NoDup_map_filter {A B} (f : A -> B) (p : A -> bool) l :
  NoDup (map f l) -> NoDup (map f (filter p l)).
Proof.
  induction l as [|x l IH]; simpl; [trivial|].
  intros H. inversion H as [|? ? Hx Hl]; subst.
  destruct (p x); simpl; [constructor|]; auto.
  intros Hin. apply Hx. apply in_map_iff in Hin.
  destruct Hin as [y [E Hy]]. apply filter_In in Hy.
  apply in_map_iff. exists y. tauto.
Qed.

Lemma addLogger_registry_ok name cls s :
  registry_ok s -> registry_ok (snd (addLogger name cls s)).
Proof.
  intros Hok. destruct (map_has name (logger (this s))) eqn:Hhas.
  - rewrite addLogger_run, Hhas. now destruct (debugMode (this s)).
  - destruct (cls_new_throws cls (JS.get_property (conf_logger (this s)) name))
      eqn:Hnew.
    + now rewrite addLogger_run, Hhas, Hnew.
    + now apply addLogger_fresh.
Qed.

Lemma removeLogger_registry_ok name s :
  registry_ok s -> registry_ok (snd (removeLogger name s)).
Proof.
  intros [Hnd Hlt]. rewrite removeLogger_run.
  unfold registry_ok, ids, instances in *.
  cbn [snd this next_id logger set_logger]. rewrite map_map in *. split.
  - now apply NoDup_map_filter.
  - rewrite Forall_forall in *. intros i Hi. apply Hlt.
    apply in_map_iff in Hi. destruct Hi as [kv [E Hin]].
    apply map_delete_In in Hin. apply in_map_iff. exists kv. tauto.
Qed.

Lemma registry_ok_same s s' :
  logger (this s') = logger (this s) -> next_id s' = next_id s ->
  registry_ok s -> registry_ok s'.
Proof.
  unfold registry_ok, ids, instances. now intros -> ->.
Qed.

Lemma run_op_registry_ok op s :
  registry_ok s -> registry_ok (snd (run_op op s)).
Proof.
  intros Hok.
  destruct op as [l| |name cls|name|t m d c|t m d c|]; unfold run_op, forget, bind.
  - apply (registry_ok_same s); [| |exact Hok];
      unfold setLevel; run;
      (destruct l as [name|]; [|reflexivity]);
      (destruct (String.eqb name EmptyString); simpl; [reflexivity|]);
      now destruct (JS.truthy (level_lookup name)).
  - exact Hok.
  - pose proof (addLogger_registry_ok name cls s Hok) as H.
    now destruct (addLogger name cls s) as [[r|e] s'].
  - now apply removeLogger_registry_ok.
  - destruct (writeLog_frame t m d c s) as [added [E _]].
    destruct (writeLog t m d c s) as [[r|e] s']; simpl in *; subst s';
      now apply (registry_ok_same s).
  - destruct (writeLog_frame t m d c s) as [added [E _]].
    destruct (convenience_run t m d c s) as [E' _]. rewrite E in E'.
    destruct (convenience t m d c s) as [[r|e] s']; simpl in *; subst s';
      now apply (registry_ok_same s).
  - destruct (flush_frame s) as [added [E _]].
    destruct (flush s) as [[r|e] s']; simpl in *; subst s';
      now apply (registry_ok_same s).
Qed.

Lemma run_ops_registry_ok ops s :
  registry_ok s -> registry_ok (run_ops ops s).
Proof.
  revert s. induction ops as [|op ops IH]; intros s H; [exact H|].
  simpl. apply IH. now apply run_op_registry_ok.
Qed.

Section ReachableRegistry.

Variable superimport : string -> option LoggerClass.

Lemma load_one_registry_ok debug name s :
  registry_ok s -> registry_ok (snd (load_one superimport debug name s)).
Proof.
  intros Hok.
  unfold load_one, import_class, bind, try_catch, when, emit, ret, throw.
  destruct debug; cbv beta iota;
    (destruct (superimport _) as [cls|]; cbv beta iota; [|exact Hok]);
    match goal with
    | |- context [addLogger name cls ?s1] =>
        pose proof (addLogger_registry_ok name cls s1 Hok) as H;
        destruct (addLogger name cls s1) as [[r|e] s2]
    end; exact H.
Qed.

Lemma load_all_registry_ok debug names s :
  registry_ok s ->
  registry_ok (snd (forEach (load_one superimport debug) names s)).
Proof.
  revert s. induction names as [|name names IH]; intros s Hok; [exact Hok|].
  cbn [forEach]. unfold bind.
  pose proof (load_one_registry_ok debug name s Hok) as H.
  destruct (load_one_frame superimport debug name s) as [l [tr [n E]]].
  rewrite E in *. now apply IH.
Qed.

(** Every state a client can bring about, from construction on, has a
    well-formed registry. *)
Lemma reachable_registry_ok conf env tr n ops :
  registry_ok (run_ops ops (snd (construct superimport conf env tr n))).
Proof.
  apply run_ops_registry_ok. unfold construct, loadLogger.
  apply load_all_registry_ok. split; constructor.
Qed.

End ReachableRegistry.

(** * Further properties of the class *)

(** ** Loading the configured backends *)

Lemma map_has_app {A} name (m m' : list (string * A)) :
  map_has name (m ++ m') = map_has name m || map_has name m'.
Proof. unfold map_has. apply existsb_app. Qed.

Lemma constructions_app a b :
  constructions (a ++ b) = constructions a ++ constructions b.
Proof. apply filter_app. Qed.

Lemma console_lines_app a b :
  console_lines (a ++ b) = console_lines a ++ console_lines b.
Proof. apply filter_app. Qed.

Section LoadingFacts.

Variable superimport : string -> option LoggerClass.

(** One round of the loop of [loadLogger], computed. *)
Lemma load_one_run debug name s :
  load_one superimport debug name s =
    let s0 := if debug
              then after s [EConsole ("[LOGTOPUS] Load " ++ name
                                      ++ " logger")%string]
              else s in
    let report e s1 :=
      if debug
      then after s1 [EConsole ("[LOGTOPUS] Could not load logger module: "
                               ++ exn_text e)%string]
      else s1 in
    match superimport (module_name name) with
    | None => (Return tt, report (ModuleNotFound (module_name name)) s0)
    | Some cls =>
        match addLogger name cls s0 with
        | (Return _, s1) => (Return tt, s1)
        | (Throw e, s1) => (Return tt, report e s1)
        end
    end.
Proof.
  unfold load_one, import_class, module_name, bind, try_catch, when, emit,
    ret, throw, after.
  destruct debug; cbv beta iota zeta;
    (destruct (superimport _) as [cls|]; cbv beta iota; [|reflexivity]);
    destruct (addLogger name cls _) as [[r|e] s1]; reflexivity.
Qed.

(** One round on a name that is not registered yet. *)
Lemma load_one_fresh name s :
  map_has name (logger (this s)) = false ->
  let s1 := snd (load_one superimport (debugMode (this s)) name s) in
  let entry := match loadable superimport (conf_logger (this s)) name with
               | Some cls => [(name, mkInstance (next_id s) cls)]
               | None => []
               end in
  let made := match loadable superimport (conf_logger (this s)) name with
              | Some cls => [ENew (cls_name cls)
                                  (JS.get_property (conf_logger (this s)) name)
                                  (next_id s)]
              | None => []
              end in
  fst (load_one superimport (debugMode (this s)) name s) = Return tt /\
  this s1 = set_logger (logger (this s) ++ entry) (this s) /\
  next_id s1 = (next_id s + List.length entry)%nat /\
  constructions (trace s1) = constructions (trace s) ++ made /\
  (debugMode (this s) = false -> trace s1 = trace s ++ made).
Proof.
  intros Hhas. rewrite load_one_run. unfold loadable.
  destruct (debugMode (this s)) eqn:Hd; cbv zeta;
    (destruct (superimport (module_name name)) as [cls|];
     [rewrite addLogger_run; cbn [this trace next_id after logger];
      rewrite Hhas;
      destruct (cls_new_throws cls _) eqn:Hnew|]);
    cbn [fst snd this trace next_id after logger];
    rewrite ?(map_set_fresh _ _ _ Hhas), ?app_nil_r, ?set_logger_same,
      ?Nat.add_0_r, ?constructions_app;
    cbn [constructions filter is_new List.length];
    rewrite ?app_nil_r;
    repeat split; try discriminate; try lia; try reflexivity.
Qed.

Lemma load_all_fresh names :
  forall s,
    NoDup names ->
    (forall x, In x names -> map_has x (logger (this s)) = false) ->
    let r := forEach (load_one superimport (debugMode (this s))) names s in
    let confs := conf_logger (this s) in
    fst r = Return tt /\
    this (snd r)
    = set_logger (logger (this s)
                  ++ loaded superimport confs names (next_id s)) (this s) /\
    next_id (snd r)
    = (next_id s
       + List.length (loaded superimport confs names (next_id s)))%nat /\
    constructions (trace (snd r))
    = constructions (trace s)
      ++ loaded_effects superimport confs names (next_id s) /\
    (debugMode (this s) = false ->
     trace (snd r)
     = trace s ++ loaded_effects superimport confs names (next_id s)).
Proof.
  induction names as [|name names IH]; intros s Hnd Hfresh.
  - cbn. rewrite !app_nil_r, set_logger_same. repeat split; lia.
  - inversion Hnd as [|? ? Hname Hnd']; subst.
    assert (Hhas : map_has name (logger (this s)) = false)
      by (apply Hfresh; now left).
    destruct (load_one_fresh name s Hhas) as [Hret [Hthis [Hnext [Hcons Htr]]]].
    cbn [forEach]. unfold bind.
    destruct (load_one superimport (debugMode (this s)) name s) as [o s1]
      eqn:E1.
    cbn [fst snd] in *. subst o.
    assert (Hdebug : debugMode (this s1) = debugMode (this s))
      by now rewrite Hthis.
    assert (Hconf : conf_logger (this s1) = conf_logger (this s))
      by now rewrite Hthis.
    assert (Hfresh1 : forall x, In x names ->
                                map_has x (logger (this s1)) = false).
    { intros x Hx. rewrite Hthis. cbn [logger set_logger].
      rewrite map_has_app, (Hfresh x (or_intror Hx)). cbn [orb].
      destruct (loadable superimport (conf_logger (this s)) name);
        [|reflexivity].
      unfold map_has. cbn. rewrite orb_false_r.
      apply String.eqb_neq. intros ->. contradiction. }
    specialize (IH s1 Hnd' Hfresh1). rewrite Hdebug, Hconf in IH.
    cbv zeta in IH. destruct IH as [IH1 [IH2 [IH3 [IH4 IH5]]]].
    cbn [loaded loaded_effects].
    destruct (forEach (load_one superimport (debugMode (this s))) names s1)
      as [o2 s2].
    cbn [fst snd] in *. subst o2.
    destruct (loadable superimport (conf_logger (this s)) name) as [cls|];
      cbn [List.length app] in *.
    + rewrite IH2, IH3, IH4, Hthis, Hnext, Hcons.
      cbn [logger set_logger conf_logger logLevel debugMode environmentDefault].
      rewrite <- !app_assoc. cbn [app].
      replace (next_id s + 1)%nat with (S (next_id s)) by lia.
      repeat split; try lia.
      intros Hd. rewrite (IH5 Hd), (Htr Hd), Hnext.
      replace (next_id s + 1)%nat with (S (next_id s)) by lia.
      now rewrite <- app_assoc.
    + rewrite app_nil_r, Nat.add_0_r in *.
      rewrite IH2, IH3, IH4, Hthis, Hnext, Hcons.
      cbn [logger set_logger conf_logger logLevel debugMode environmentDefault].
      rewrite set_logger_same.
      repeat split.
      intros Hd. now rewrite (IH5 Hd), (Htr Hd), Hnext.
Qed.

(** Property X1. With diagnostics off (neither [conf.debugMode] nor the
    environment variable LOGTOPUS_DEBUG set), construction returns whatever
    the module loader and the backend constructors do or throw.  The
    registry then holds, in the order of the configuration, exactly the
    configured names whose module resolves and whose constructor returns,
    each with a fresh instance; every constructor was given the
    configuration kept under its name; and nothing else happened in the
    world.  The configured names are distinct, as the keys of an object
    are. *)
Theorem construct_loads_what_resolves :
  forall (conf : option Conf) (env : ProcessEnv) (tr : list Effect) (n : nat),
    let o := init_object conf env in
    let names := map fst (conf_logger o) in
    NoDup names ->
    debugMode o = false ->
    let s := snd (construct superimport conf env tr n) in
    fst (construct superimport conf env tr n) = Return tt /\
    logger (this s) = loaded superimport (conf_logger o) names n /\
    next_id s
    = (n + List.length (loaded superimport (conf_logger o) names n))%nat /\
    trace s = tr ++ loaded_effects superimport (conf_logger o) names n.
Proof.
  intros conf env tr n o names Hnd Hdebug s.
  destruct (load_all_fresh names (mkState o tr n) Hnd) as [H1 [H2 [H3 [H4 H5]]]].
  { intros x _. reflexivity. }
  unfold s, construct, loadLogger. fold o. cbn [this trace next_id] in *.
  fold names. rewrite H2. repeat split; try assumption.
  exact (H5 Hdebug).
Qed.

End LoadingFacts.

Lemma construct_loads_what_resolves_witness :
  construct console_only None staging_env [] 0
  = (Return tt,
     mkState (set_logger [("console", mkInstance 0 Healthy)]
                         (init_object None staging_env))
             (loaded_effects console_only
                (conf_logger (init_object None staging_env)) ["console"] 0)
             1).
Proof.
  assert (Hnd : NoDup (map fst (conf_logger (init_object None staging_env))))
    by (repeat constructor; simpl; intuition discriminate).
  destruct (construct_loads_what_resolves console_only None staging_env [] 0
              Hnd eq_refl) as [Hret [Hreg [Hnext Htr]]].
  destruct (construct console_only None staging_env [] 0) as [r s] eqn:E.
  cbn [fst snd] in *. subst r. f_equal.
  destruct s as [o tr n]. cbn [this trace next_id] in *.
  rewrite Hnext, Htr. f_equal.
  pose proof (construct_frame console_only None staging_env [] 0) as [l [t [m F]]].
  rewrite E in F. injection F as -> _ _. cbn [logger set_logger] in Hreg.
  now rewrite Hreg.
Defined.

(** ** Module names *)

Lemma lower_not_upper c :
  is_upper c = true -> is_upper (ascii_of_nat (nat_of_ascii c + 32)) = false.
Proof.
  unfold is_upper. intros H. apply andb_true_iff in H. destruct H as [H1 H2].
  apply Nat.leb_le in H1, H2.
  rewrite nat_ascii_embedding by lia.
  apply andb_false_iff. right. apply Nat.leb_gt. lia.
Qed.

Lemma small_letter_spec c :
  small_letter c
  = if is_upper c then Some (ascii_of_nat (nat_of_ascii c + 32)) else None.
Proof.
  destruct c as [[] [] [] [] [] [] [] []]; vm_compute; reflexivity.
Qed.

(** Property X2. The name handed to the module loader is the configured name
    with each of the capital letters A to Z replaced by a hyphen followed by
    that letter's small form (A by -a, B by -b, ..., Z by -z) and every
    other character kept as it is, between [logtopus-] and [-logger].  So it
    holds no capital letter, it is longer than the configured name by the
    number of capital letters, and a name without capital letters is passed
    as it is. *)
Theorem hyphenate_spec :
  forall s : string,
    hyphenate s = hyphen_and_small s /\
    count_upper (hyphenate s) = O /\
    String.length (hyphenate s) = (String.length s + count_upper s)%nat /\
    (count_upper s = O -> hyphenate s = s) /\
    module_name s = ("logtopus-" ++ hyphen_and_small s ++ "-logger")%string.
Proof.
  intros s.
  assert (Htable : hyphenate s = hyphen_and_small s).
  { induction s as [|c s IH]; [reflexivity|].
    cbn [hyphenate hyphen_and_small]. rewrite small_letter_spec.
    destruct (is_upper c); now rewrite IH. }
  split; [exact Htable|split; [|split; [|split]]].
  - induction s as [|c s IH]; [reflexivity|].
    cbn [hyphenate]. destruct (is_upper c) eqn:E; cbn [count_upper].
    + rewrite (lower_not_upper c E), IH; [reflexivity|].
      clear. induction s as [|c s IH]; [reflexivity|].
      cbn [hyphenate hyphen_and_small]. rewrite small_letter_spec.
      destruct (is_upper c); now rewrite IH.
    + rewrite E, IH; [reflexivity|].
      clear. induction s as [|c s IH]; [reflexivity|].
      cbn [hyphenate hyphen_and_small]. rewrite small_letter_spec.
      destruct (is_upper c); now rewrite IH.
  - clear Htable. induction s as [|c s IH]; [reflexivity|].
    cbn [hyphenate count_upper]. destruct (is_upper c); cbn [String.length];
      rewrite IH; lia.
  - clear Htable. induction s as [|c s IH]; [reflexivity|].
    cbn [hyphenate count_upper]. destruct (is_upper c); [discriminate|].
    intros H. now rewrite IH.
  - unfold module_name. now rewrite Htable.
Qed.

Lemma hyphenate_spec_witness :
  hyphenate "fileLoggerXL" = "file-logger-x-l"%string /\
  hyphenate "console" = "console"%string /\
  module_name "fileLogger" = "logtopus-file-logger-logger"%string.
Proof.
  split; [|split].
  - exact (proj1 (hyphenate_spec "fileLoggerXL")).
  - exact (proj1 (proj2 (proj2 (proj2 (hyphenate_spec "console")))) eq_refl).
  - exact (proj2 (proj2 (proj2 (proj2 (hyphenate_spec "fileLogger"))))).
Defined.

(** ** Adding, removing, adding again *)

Lemma map_has_delete {A} name (m : list (string * A)) :
  map_has name (map_delete name m) = false.
Proof.
  unfold map_has, map_delete.
  destruct (existsb _ _) eqn:E; [|reflexivity].
  apply existsb_exists in E. destruct E as [kv [Hin E]].
  apply filter_In in Hin. destruct Hin as [_ Hne].
  rewrite E in Hne. discriminate.
Qed.

Lemma map_delete_app {A} name (m m' : list (string * A)) :
  map_delete name (m ++ m') = map_delete name m ++ map_delete name m'.
Proof. apply filter_app. Qed.

(** Property X3. Adding a backend under a name that is not registered and removing it
    again leaves the facade as it was, whether the constructor returned or
    threw. *)
Theorem addLogger_removeLogger_roundtrip :
  forall (s : State) (name : string) (cls : LoggerClass),
    map_has name (logger (this s)) = false ->
    this (snd (removeLogger name (snd (addLogger name cls s)))) = this s.
Proof.
  intros s name cls Hhas. rewrite removeLogger_run, addLogger_run, Hhas.
  destruct (cls_new_throws cls _); cbn [snd this logger set_logger].
  - rewrite (map_delete_absent _ _ Hhas). destruct (this s); reflexivity.
  - rewrite (map_set_fresh _ _ _ Hhas), map_delete_app,
      (map_delete_absent _ _ Hhas).
    unfold map_delete at 1. cbn. rewrite String.eqb_refl. cbn.
    rewrite app_nil_r. destruct (this s); reflexivity.
Qed.

Lemma addLogger_removeLogger_roundtrip_witness :
  this (snd (removeLogger "mail" (snd (addLogger "mail" Other two_healthy))))
  = this two_healthy.
Proof.
  exact (addLogger_removeLogger_roundtrip two_healthy "mail" Other eq_refl).
Defined.

(** Property X4. [addLogger] alone never replaces a backend; removing the name first
    does.  After [removeLogger(name)] and [addLogger(name, cls)], with a
    constructor that returns, the name holds a fresh instance of [cls], the
    instance was given the configuration kept under the name, and the name
    comes last in the order of the fan-out, the other backends keeping
    their order. *)
Theorem removeLogger_addLogger_replaces :
  forall (s : State) (name : string) (cls : LoggerClass),
    cls_new_throws cls (JS.get_property (conf_logger (this s)) name) = false ->
    let s1 := snd (removeLogger name s) in
    let s2 := snd (addLogger name cls s1) in
    fst (addLogger name cls s1) = Return This /\
    logger (this s2)
    = map_delete name (logger (this s))
      ++ [(name, mkInstance (next_id s) cls)] /\
    map_get name (logger (this s2)) = Some (mkInstance (next_id s) cls) /\
    trace s2
    = trace s ++ [ENew (cls_name cls)
                       (JS.get_property (conf_logger (this s)) name)
                       (next_id s)] /\
    next_id s2 = S (next_id s).
Proof.
  intros s name cls Hnew s1 s2.
  assert (E : addLogger name cls s1
              = (Return This,
                 mkState (set_logger (map_delete name (logger (this s))
                                      ++ [(name, mkInstance (next_id s) cls)])
                                     (this s1))
                         (trace s ++ [ENew (cls_name cls)
                                        (JS.get_property (conf_logger (this s))
                                                         name)
                                        (next_id s)])
                         (S (next_id s)))).
  { unfold s1. rewrite removeLogger_run, addLogger_run.
    cbn [snd this trace next_id logger set_logger conf_logger].
    rewrite map_has_delete, Hnew.
    now rewrite (map_set_fresh _ _ _ (map_has_delete name _)). }
  unfold s2. rewrite E. cbn [fst snd this trace next_id logger set_logger].
  repeat split. apply map_get_last, map_has_delete.
Qed.

Lemma removeLogger_addLogger_replaces_witness :
  logger (this (snd (addLogger "console" Other
                       (snd (removeLogger "console" two_healthy)))))
  = [("file", mkInstance 1 Healthy); ("console", mkInstance 2 Other)].
Proof.
  exact (proj1 (proj2 (removeLogger_addLogger_replaces two_healthy "console"
                         Other eq_refl))).
Defined.

(** ** The registry in every reachable state *)

Lemma addLogger_names_ok name cls s :
  NoDup (names s) -> NoDup (names (snd (addLogger name cls s))).
Proof.
  intros H. rewrite addLogger_run.
  destruct (map_has name (logger (this s))) eqn:Hhas.
  - now destruct (debugMode (this s)).
  - destruct (cls_new_throws cls _); [exact H|].
    unfold names in *. cbn [snd this logger set_logger].
    rewrite (map_set_fresh _ _ _ Hhas), map_app. cbn [map fst].
    apply NoDup_app; [exact H|repeat constructor; intros []|].
    intros x Hx [<-|[]].
    apply in_map_iff in Hx. destruct Hx as [kv [E Hin]].
    unfold map_has in Hhas.
    assert (Hex : existsb (fun kv0 => String.eqb (fst kv0) (fst kv))
                          (logger (this s)) = true).
    { apply existsb_exists. exists kv. split; [exact Hin|].
      apply String.eqb_refl. }
    rewrite E in Hex. congruence.
Qed.

Lemma run_op_names_ok op s :
  NoDup (names s) -> NoDup (names (snd (run_op op s))).
Proof.
  intros H.
  destruct op as [l| |name cls|name|t m d c|t m d c|];
    unfold run_op, forget, bind.
  - assert (E : names (snd (let (o, s') := setLevel l s in
                            match o with
                            | Return _ => ret tt s'
                            | Throw e => (Throw e, s')
                            end)) = names s); [|now rewrite E].
    unfold setLevel. run.
    destruct l as [name|]; [|reflexivity].
    destruct (String.eqb name EmptyString); simpl; [reflexivity|].
    now destruct (JS.truthy (level_lookup name)).
  - exact H.
  - pose proof (addLogger_names_ok name cls s H) as H'.
    now destruct (addLogger name cls s) as [[r|e] s'].
  - rewrite removeLogger_run. unfold names in *.
    cbn [snd this logger set_logger ret].
    now apply NoDup_map_filter.
  - destruct (writeLog_frame t m d c s) as [added [E _]].
    destruct (writeLog t m d c s) as [[r|e] s']; simpl in *; now subst s'.
  - destruct (writeLog_frame t m d c s) as [added [E _]].
    destruct (convenience_run t m d c s) as [E' _]. rewrite E in E'.
    destruct (convenience t m d c s) as [[r|e] s']; simpl in *; now subst s'.
  - destruct (flush_frame s) as [added [E _]].
    destruct (flush s) as [[r|e] s']; simpl in *; now subst s'.
Qed.

Lemma run_op_allocated n op s :
  allocated_from n s -> allocated_from n (snd (run_op op s)).
Proof.
  intros [Hn Hall].
  destruct (run_op_shape op s) as [l [added [n' [E [Hle [Hids _]]]]]].
  rewrite E. unfold allocated_from, ids, instances. cbn [this next_id logger].
  split; [lia|].
  apply Forall_forall. intros i Hi. destruct (Hids i Hi) as [Hold|Hnew].
  - rewrite Forall_forall in Hall. apply Hall in Hold. lia.
  - lia.
Qed.

Lemma addLogger_allocated n name cls s :
  allocated_from n s -> allocated_from n (snd (addLogger name cls s)).
Proof.
  intros H. pose proof (run_op_allocated n (OAddLogger name cls) s H) as H'.
  unfold run_op, forget, bind in H'.
  now destruct (addLogger name cls s) as [[r|e] s'].
Qed.

Section ReachableNames.

Variable superimport : string -> option LoggerClass.

Lemma load_one_names_ok debug name s :
  NoDup (names s) -> NoDup (names (snd (load_one superimport debug name s))).
Proof.
  intros H. rewrite load_one_run. cbv zeta.
  destruct (superimport (module_name name)) as [cls|].
  - match goal with
    | |- context [addLogger name cls ?s0] =>
        assert (H0 : NoDup (names s0)) by (destruct debug; exact H);
        pose proof (addLogger_names_ok name cls s0 H0) as H1;
        destruct (addLogger name cls s0) as [[r|e] s1]
    end; [exact H1|destruct debug; exact H1].
  - destruct debug; exact H.
Qed.

Lemma load_one_allocated n debug name s :
  allocated_from n s ->
  allocated_from n (snd (load_one superimport debug name s)).
Proof.
  intros H. rewrite load_one_run. cbv zeta.
  destruct (superimport (module_name name)) as [cls|].
  - match goal with
    | |- context [addLogger name cls ?s0] =>
        assert (H0 : allocated_from n s0) by (destruct debug; exact H);
        pose proof (addLogger_allocated n name cls s0 H0) as H1;
        destruct (addLogger name cls s0) as [[r|e] s1]
    end; [exact H1|destruct debug; exact H1].
  - destruct debug; exact H.
Qed.

(** Property X5. In every state a client can bring about, from construction on, no name
    holds two backends, no backend instance is held under two names, and
    every registered instance is one that was constructed. *)
Theorem reachable_registry_wellformed :
  forall (conf : option Conf) (env : ProcessEnv) (tr : list Effect) (n : nat)
         (ops : list Op),
    let s := run_ops ops (snd (construct superimport conf env tr n)) in
    NoDup (names s) /\
    NoDup (ids s) /\
    Forall (fun i => (n <= i < next_id s)%nat) (ids s).
Proof.
  intros conf env tr n ops s.
  split; [|split].
  - unfold s. clear s. 
    assert (H0 : NoDup (names (snd (construct superimport conf env tr n)))).
    { unfold construct, loadLogger. cbn [this debugMode conf_logger].
      generalize (map fst (conf_logger (init_object conf env))).
      generalize (debugMode (init_object conf env)).
      intros debug l.
      assert (Hs : NoDup (names (mkState (init_object conf env) tr n)))
        by constructor.
      revert Hs. generalize (mkState (init_object conf env) tr n).
      induction l as [|name l IH]; intros s0 Hs; [exact Hs|].
      cbn [forEach]. unfold bind.
      pose proof (load_one_names_ok debug name s0 Hs) as H1.
      destruct (load_one_frame superimport debug name s0) as [l' [tr' [n' E]]].
      rewrite E in *. now apply IH. }
    revert H0. generalize (snd (construct superimport conf env tr n)).
    induction ops as [|op ops IH]; intros s0 H0; [exact H0|].
    cbn [run_ops]. apply IH. now apply run_op_names_ok.
  - apply (reachable_registry_ok superimport conf env tr n ops).
  - unfold s. clear s.
    assert (H0 : allocated_from n (snd (construct superimport conf env tr n))).
    { unfold construct, loadLogger. cbn [this debugMode conf_logger].
      generalize (map fst (conf_logger (init_object conf env))).
      generalize (debugMode (init_object conf env)).
      intros debug l.
      assert (Hs : allocated_from n (mkState (init_object conf env) tr n))
        by (split; [cbn; lia|constructor]).
      revert Hs. generalize (mkState (init_object conf env) tr n).
      induction l as [|name l IH]; intros s0 Hs; [exact Hs|].
      cbn [forEach]. unfold bind.
      pose proof (load_one_allocated n debug name s0 Hs) as H1.
      destruct (load_one_frame superimport debug name s0) as [l' [tr' [n' E]]].
      rewrite E in *. now apply IH. }
    revert H0. generalize (snd (construct superimport conf env tr n)).
    induction ops as [|op ops IH]; intros s0 H0; [exact (proj2 H0)|].
    cbn [run_ops]. apply IH. now apply run_op_allocated.
Qed.

End ReachableNames.

(** ** What a call leaves alone *)

Lemma log_calls_cons_app tr added :
  log_calls added = [] -> log_calls (tr ++ added) = log_calls tr.
Proof. intros H. now rewrite log_calls_app, H, app_nil_r. Qed.

Lemma fan_out_kinds debug ev clk lgs s :
  exists added,
    snd (forEach (write_to debug ev clk) lgs s) = after s added /\
    constructions added = [] /\ flush_calls added = [] /\
    (debug = false -> console_lines added = []).
Proof.
  revert s. induction lgs as [|lg lgs IH]; intros s.
  - exists []. simpl. rewrite after_nil. now repeat split.
  - cbn [forEach]. unfold bind. rewrite write_to_run.
    destruct (cls_log_throws (inst_class lg) ev).
    + eexists. split; [reflexivity|]. now repeat split.
    + destruct (IH (after s (delivery debug ev clk lg)))
        as [added [E [H1 [H2 H3]]]].
      exists (delivery debug ev clk lg ++ added). split.
      * destruct (forEach _ lgs _) as [[[]|e] s']; simpl in E; subst s';
          simpl; now rewrite after_after.
      * rewrite constructions_app, flush_calls_app, console_lines_app, H1, H2.
        unfold delivery. destruct debug; cbn; repeat split; try discriminate.
        intros _. now apply H3.
Qed.

Lemma writeLog_kinds type msg data clk s :
  exists added,
    snd (writeLog type msg data clk s) = after s added /\
    constructions added = [] /\ flush_calls added = [] /\
    (debugMode (this s) = false -> console_lines added = []).
Proof.
  unfold writeLog.
  destruct (filtered type (logLevel (this s))).
  - exists []. simpl. rewrite after_nil. now repeat split.
  - run. destruct (rendering msg) as [[p c]|e].
    + destruct (fan_out_kinds (debugMode (this s))
                  (mkEvent type p c data (now clk) (uptime clk)) clk
                  (map snd (logger (this s))) s) as [added [E H]].
      exists added. split; [|exact H]. simpl.
      destruct (forEach _ _ s) as [[[]|e] s']; simpl in *; exact E.
    + exists []. simpl. rewrite after_nil. now repeat split.
Qed.

Lemma flush_each_kinds lgs acc s :
  exists added,
    snd (flush_each lgs acc s) = after s added /\
    constructions added = [] /\ log_calls added = [] /\
    console_lines added = [].
Proof.
  revert acc s. induction lgs as [|lg lgs IH]; intros acc s.
  - exists []. simpl. rewrite after_nil. now repeat split.
  - cbn [flush_each]. destruct (cls_flush (inst_class lg)) as [[|p]|].
    + eexists. split; [reflexivity|]. now repeat split.
    + run. destruct (IH (acc ++ [p]) (after s [EFlush (inst_id lg)]))
        as [added [E H]].
      exists (EFlush (inst_id lg) :: added). split; [|exact H].
      unfold after in E. simpl in E. rewrite E.
      unfold after. simpl. now rewrite <- app_assoc.
    + apply IH.
Qed.

Lemma flush_kinds s :
  exists added,
    snd (flush s) = after s added /\
    constructions added = [] /\ log_calls added = [] /\
    console_lines added = [].
Proof.
  unfold flush. run.
  destruct (flush_each_kinds (map snd (logger (this s))) [] s)
    as [added [E H]].
  exists added. split; [|exact H].
  destruct (flush_each _ _ s) as [[ps|e] s']; simpl in *; exact E.
Qed.

Lemma run_op_writeLog t m d c s :
  snd (run_op (OWriteLog t m d c) s) = snd (writeLog t m d c s).
Proof.
  unfold run_op, forget, bind.
  now destruct (writeLog t m d c s) as [[r|e] s'].
Qed.

Lemma run_op_convenience t m d c s :
  snd (run_op (OConvenience t m d c) s) = snd (writeLog t m d c s).
Proof.
  unfold run_op, forget, bind.
  destruct (convenience_run t m d c s) as [E _]. rewrite <- E.
  now destruct (convenience t m d c s) as [[r|e] s'].
Qed.

Lemma run_op_flush s : snd (run_op OFlush s) = snd (flush s).
Proof.
  unfold run_op, forget, bind. now destruct (flush s) as [[r|e] s'].
Qed.

Lemma run_op_setLevel l s :
  exists v, snd (run_op (OSetLevel l) s) = with_level v s.
Proof.
  unfold run_op, forget, bind, setLevel. run.
  destruct l as [name|]; [|eexists; reflexivity].
  destruct (String.eqb name EmptyString); simpl; [eexists; reflexivity|].
  destruct (JS.truthy (level_lookup name)); simpl; [eexists; reflexivity|].
  exists (logLevel (this s)). unfold with_level.
  now rewrite set_logLevel_same, state_eta.
Qed.

Lemma run_op_addLogger name cls s :
  snd (run_op (OAddLogger name cls) s) = snd (addLogger name cls s).
Proof.
  unfold run_op, forget, bind.
  now destruct (addLogger name cls s) as [[r|e] s'].
Qed.

(** Property X6. Each kind of call touches its own part of the facade and of the world
    and nothing else: only [setLevel] moves the threshold, only [addLogger]
    and [removeLogger] change the registry, only [addLogger] constructs a
    backend, only [writeLog] and the convenience methods call [log], only
    [flush] calls [flush], and no call changes the configuration, the
    diagnostics flag or the environment default. *)
Theorem call_leaves_the_rest_alone :
  forall (op : Op) (s : State),
    let s' := snd (run_op op s) in
    (is_setLevel op = false -> logLevel (this s') = logLevel (this s)) /\
    (is_addLogger op = false -> is_removeLogger op = false ->
     logger (this s') = logger (this s)) /\
    (is_addLogger op = false ->
     constructions (trace s') = constructions (trace s) /\
     next_id s' = next_id s) /\
    (is_dispatch op = false -> log_calls (trace s') = log_calls (trace s)) /\
    (is_flush op = false -> flush_calls (trace s') = flush_calls (trace s)) /\
    conf_logger (this s') = conf_logger (this s) /\
    debugMode (this s') = debugMode (this s) /\
    environmentDefault (this s') = environmentDefault (this s).
Proof.
  intros op s s'. unfold s'. clear s'.
  destruct op as [l| |name cls|name|t m d c|t m d c|]; cbn [is_setLevel
    is_addLogger is_removeLogger is_dispatch is_flush].
  - destruct (run_op_setLevel l s) as [v E]. rewrite E.
    repeat split; discriminate.
  - repeat split.
  - rewrite run_op_addLogger, addLogger_run.
    destruct (map_has name (logger (this s)));
      [destruct (debugMode (this s)) eqn:Hdm|destruct (cls_new_throws cls _)];
      cbn [snd this trace next_id logger set_logger];
      repeat split; try discriminate; intros;
      rewrite ?log_calls_app, ?flush_calls_app; cbn;
      rewrite ?app_nil_r; congruence.
  - repeat split; intros; try discriminate; reflexivity.
  - rewrite run_op_writeLog.
    destruct (writeLog_kinds t m d c s) as [added [E [H1 [H2 _]]]]. rewrite E.
    cbn [after this trace next_id].
    repeat split; try discriminate; intros;
      rewrite ?constructions_app, ?flush_calls_app, ?H1, ?H2;
      now rewrite app_nil_r.
  - rewrite run_op_convenience.
    destruct (writeLog_kinds t m d c s) as [added [E [H1 [H2 _]]]]. rewrite E.
    cbn [after this trace next_id].
    repeat split; try discriminate; intros;
      rewrite ?constructions_app, ?flush_calls_app, ?H1, ?H2;
      now rewrite app_nil_r.
  - rewrite run_op_flush.
    destruct (flush_kinds s) as [added [E [H1 [H2 _]]]]. rewrite E.
    cbn [after this trace next_id].
    repeat split; try discriminate; intros;
      rewrite ?constructions_app, ?log_calls_app, ?H1, ?H2;
      now rewrite app_nil_r.
Qed.

Lemma call_leaves_the_rest_alone_witness :
  logLevel (this (snd (run_op (OWriteLog "error" (MString "y") [] noon)
                         broken_first)))
  = logLevel (this broken_first).
Proof.
  exact (proj1 (call_leaves_the_rest_alone
                  (OWriteLog "error" (MString "y") [] noon) broken_first)
               eq_refl).
Defined.

Lemma run_op_console_lines op s :
  debugMode (this s) = false ->
  console_lines (trace (snd (run_op op s))) = console_lines (trace s).
Proof.
  intros Hd.
  destruct op as [l| |name cls|name|t m d c|t m d c|].
  - destruct (run_op_setLevel l s) as [v E]. now rewrite E.
  - reflexivity.
  - rewrite run_op_addLogger, addLogger_run.
    destruct (map_has name (logger (this s)));
      [destruct (debugMode (this s))|destruct (cls_new_throws cls _)];
      cbn [snd trace]; rewrite ?console_lines_app; cbn;
      now rewrite ?app_nil_r.
  - reflexivity.
  - rewrite run_op_writeLog.
    destruct (writeLog_kinds t m d c s) as [added [E [_ [_ H]]]]. rewrite E.
    cbn [after trace]. now rewrite console_lines_app, (H Hd), app_nil_r.
  - rewrite run_op_convenience.
    destruct (writeLog_kinds t m d c s) as [added [E [_ [_ H]]]]. rewrite E.
    cbn [after trace]. now rewrite console_lines_app, (H Hd), app_nil_r.
  - rewrite run_op_flush.
    destruct (flush_kinds s) as [added [E [_ [_ H]]]]. rewrite E.
    cbn [after trace]. now rewrite console_lines_app, H, app_nil_r.
Qed.

Lemma call_frame_debug op s :
  debugMode (this (snd (run_op op s))) = debugMode (this s) /\
  conf_logger (this (snd (run_op op s))) = conf_logger (this s).
Proof.
  destruct (run_op_shape op s) as [l [added [n' [E _]]]]. now rewrite E.
Qed.

Lemma load_one_console_lines superimport name s :
  console_lines (trace (snd (load_one superimport false name s)))
  = console_lines (trace s).
Proof.
  rewrite load_one_run. cbv zeta.
  destruct (superimport (module_name name)) as [cls|]; [|reflexivity].
  rewrite addLogger_run.
  destruct (map_has name (logger (this s)));
    [destruct (debugMode (this s))|destruct (cls_new_throws cls _)];
    cbn [snd trace]; rewrite ?console_lines_app; cbn;
    now rewrite ?app_nil_r.
Qed.

Lemma construct_console_lines superimport conf env tr n :
  debugMode (init_object conf env) = false ->
  console_lines (trace (snd (construct superimport conf env tr n)))
  = console_lines tr.
Proof.
  intros Hd. unfold construct, loadLogger. cbn [this]. rewrite Hd.
  generalize (map fst (conf_logger (init_object conf env))).
  change tr with (trace (mkState (init_object conf env) tr n)) at 2.
  generalize (mkState (init_object conf env) tr n).
  intros s0 l. revert s0.
  induction l as [|name l IH]; intros s0; [reflexivity|].
  cbn [forEach]. unfold bind.
  pose proof (load_one_console_lines superimport name s0) as H1.
  destruct (load_one_frame superimport false name s0) as [l' [tr' [n' E]]].
  rewrite E in *. cbn [snd] in H1. rewrite IH. exact H1.
Qed.

(** Property X7. With diagnostics off the facade never prints on the console, neither
    while it is built nor in any later call; and whether diagnostics are
    on is settled at construction, from the configuration or the
    environment, for good. *)
Theorem silent_without_diagnostics :
  forall (superimport : string -> option LoggerClass) (conf : option Conf)
         (env : ProcessEnv) (tr : list Effect) (n : nat) (ops : list Op),
    let c := match conf with Some c => c | None => empty_conf end in
    let s := run_ops ops (snd (construct superimport conf env tr n)) in
    debugMode (this s)
    = (conf_debugMode c || env_truthy (LOGTOPUS_DEBUG env)) /\
    (conf_debugMode c = false -> env_truthy (LOGTOPUS_DEBUG env) = false ->
     console_lines (trace s) = console_lines tr).
Proof.
  intros superimport conf env tr n ops c s.
  assert (Hrun : forall ops0 s0,
             debugMode (this (run_ops ops0 s0)) = debugMode (this s0) /\
             (debugMode (this s0) = false ->
              console_lines (trace (run_ops ops0 s0))
              = console_lines (trace s0))).
  { induction ops0 as [|op ops0 IH]; intros s0; [now split|].
    cbn [run_ops].
    destruct (call_frame_debug op s0) as [Hd _].
    destruct (IH (snd (run_op op s0))) as [IH1 IH2].
    split; [now rewrite IH1|].
    intros H0. rewrite IH2 by now rewrite Hd.
    now apply run_op_console_lines. }
  destruct (construct_frame superimport conf env tr n) as [l [tr' [n' E]]].
  destruct (Hrun ops (snd (construct superimport conf env tr n))) as [H1 H2].
  fold s in H1, H2. split.
  - rewrite H1, E. reflexivity.
  - intros Hc He. rewrite H2.
    + apply (construct_console_lines superimport conf env tr n).
      cbn. fold c. now rewrite Hc, He.
    + rewrite E. cbn. fold c. now rewrite Hc, He.
Qed.

Lemma silent_without_diagnostics_witness :
  console_lines
    (trace (run_ops [OWriteLog "error" (MString "y") [] noon;
                     OAddLogger "console" Other; OFlush]
              (snd (construct console_only None staging_env [] 0))))
  = console_lines [].
Proof.
  exact (proj2 (silent_without_diagnostics console_only None staging_env [] 0
                  [OWriteLog "error" (MString "y") [] noon;
                   OAddLogger "console" Other; OFlush])
               eq_refl eq_refl).
Defined.

(** ** More on the threshold *)

Lemma setLevel_run l s :
  setLevel l s =
    match l with
    | None =>
        (Return This, with_level (JS.Number (environmentDefault (this s))) s)
    | Some name =>
        if String.eqb name EmptyString then
          (Return This, with_level (JS.Number (environmentDefault (this s))) s)
        else if JS.truthy (level_lookup name) then
          (Return This, with_level (level_lookup name) s)
        else (Throw (Error "Invalid log level argument!"), s)
    end.
Proof.
  unfold setLevel. destruct l as [name|]; [|reflexivity].
  destruct (String.eqb name EmptyString); [reflexivity|].
  cbn [negb]. now destruct (JS.truthy (level_lookup name)).
Qed.

(** Property X8. The last successful [setLevel] decides: whatever an earlier [setLevel]
    did, also when it threw, a [setLevel] that is accepted leaves the facade
    exactly as if it had been the only one. *)
Theorem setLevel_last_wins :
  forall (a b : option string) (s : State),
    fst (setLevel b s) = Return This ->
    setLevel b (snd (setLevel a s)) = setLevel b s.
Proof.
  intros a b s Hb.
  assert (Ha : exists v, snd (setLevel a s) = with_level v s).
  { rewrite (setLevel_run a s). destruct a as [name|]; [|eexists; reflexivity].
    destruct (String.eqb name EmptyString); [eexists; reflexivity|].
    destruct (JS.truthy (level_lookup name)); [eexists; reflexivity|].
    exists (logLevel (this s)). unfold with_level. cbn [snd].
    now rewrite set_logLevel_same, state_eta. }
  destruct Ha as [v Ha]. rewrite Ha.
  rewrite (setLevel_run b s) in Hb. rewrite !setLevel_run.
  destruct b as [name|]; [|reflexivity].
  destruct (String.eqb name EmptyString); [reflexivity|].
  destruct (JS.truthy (level_lookup name)); [reflexivity|discriminate].
Qed.

Lemma setLevel_last_wins_witness :
  setLevel (Some "warn") (snd (setLevel (Some "verbose") sample_state))
  = setLevel (Some "warn") sample_state /\
  setLevel None (snd (setLevel (Some "debug") sample_state))
  = setLevel None sample_state.
Proof.
  split.
  - exact (setLevel_last_wins (Some "verbose") (Some "warn") sample_state
             eq_refl).
  - exact (setLevel_last_wins (Some "debug") None sample_state eq_refl).
Defined.

Lemma rank_first_key name r :
  rank name = Some r ->
  first_key_with (JS.Number r) definedLogLevels = Some name.
Proof.
  intros H. apply rank_cases in H.
  repeat (destruct H as [H|H]; [inversion H; reflexivity|]).
  inversion H; reflexivity.
Qed.

Lemma first_key_rank v k :
  first_key_with v definedLogLevels = Some k ->
  exists r, rank k = Some r /\ v = JS.Number r.
Proof.
  intros H. apply first_key_with_In in H. destruct H as [r [Hin Hv]].
  exists r. split; [|exact Hv]. simpl in Hin.
  repeat (destruct Hin as [Hin|Hin]; [inversion Hin; reflexivity|]).
  contradiction.
Qed.

Lemma rank_of_range r :
  1 <= r <= 7 -> exists name, rank name = Some r.
Proof.
  intros H.
  assert (C : r = 1 \/ r = 2 \/ r = 3 \/ r = 4 \/ r = 5 \/ r = 6 \/ r = 7)
    by lia.
  destruct C as [->|[->|[->|[->|[->|[->| ->]]]]]];
    [exists "error"%string|exists "warn"%string|exists "sys"%string
    |exists "req"%string|exists "res"%string|exists "info"%string
    |exists "debug"%string]; reflexivity.
Qed.

(** Property X9. [getLevel] is the inverse of the level table: it returns the name [k]
    exactly when the threshold is the rank of [k], and [undefined] exactly
    when the threshold is none of the ranks 1 to 7; it never throws and
    changes nothing. *)
Theorem getLevel_inverts_rank :
  forall s : State,
    (forall k, fst (getLevel s) = Return (Some k) <->
               exists r, rank k = Some r /\ logLevel (this s) = JS.Number r) /\
    (fst (getLevel s) = Return None <->
     forall r, logLevel (this s) = JS.Number r -> ~ 1 <= r <= 7) /\
    snd (getLevel s) = s.
Proof.
  intros s. unfold getLevel, ret. cbn [fst snd].
  split; [|split; [|reflexivity]].
  - intros k. split.
    + intros H.
      assert (Hk : first_key_with (logLevel (this s)) definedLogLevels = Some k)
        by congruence.
      now apply first_key_rank.
    + intros [r [Hr Hl]]. rewrite Hl. now rewrite (rank_first_key _ _ Hr).
  - split.
    + intros H r Hl Hrange.
      destruct (rank_of_range r Hrange) as [name Hname].
      rewrite Hl, (rank_first_key _ _ Hname) in H. discriminate.
    + intros H.
      destruct (first_key_with (logLevel (this s)) definedLogLevels) as [k|]
        eqn:E; [|reflexivity].
      destruct (first_key_rank _ _ E) as [r [Hr Hl]].
      exfalso. apply (H r Hl). now apply (rank_range k).
Qed.

Lemma getLevel_inverts_rank_witness :
  fst (getLevel (with_level (JS.Number 8) sample_state)) = Return None /\
  fst (getLevel (with_level (JS.Number 5) sample_state)) = Return (Some "res"%string).
Proof.
  destruct (getLevel_inverts_rank (with_level (JS.Number 8) sample_state))
    as [_ [H8 _]].
  destruct (getLevel_inverts_rank (with_level (JS.Number 5) sample_state))
    as [H5 _].
  split.
  - apply H8. intros r [= <-]. lia.
  - apply H5. exists 5. split; reflexivity.
Defined.

(** Property X10. The environment default is always one of the ranks, so after
    [setLevel()] a facade built in any environment answers [getLevel()]
    with a level name: [sys] in production, [res] in staging and qa,
    [error] in test, [info] anywhere else. *)
Theorem default_level_has_a_name :
  forall (superimport : string -> option LoggerClass) (conf : option Conf)
         (env : ProcessEnv) (tr : list Effect) (n : nat) (ops : list Op),
    let s := run_ops ops (snd (construct superimport conf env tr n)) in
    let s' := snd (setLevel None s) in
    exists k,
      fst (getLevel s') = Return (Some k) /\
      (NODE_ENV env = Some "production"%string -> k = "sys"%string) /\
      (NODE_ENV env = Some "staging"%string -> k = "res"%string) /\
      (NODE_ENV env = Some "qa"%string -> k = "res"%string) /\
      (NODE_ENV env = Some "test"%string -> k = "error"%string) /\
      (NODE_ENV env <> Some "production"%string ->
       NODE_ENV env <> Some "staging"%string ->
       NODE_ENV env <> Some "qa"%string ->
       NODE_ENV env <> Some "test"%string -> k = "info"%string).
Proof.
  intros superimport conf env tr n ops s s'.
  assert (Hl : logLevel (this s')
               = JS.Number (environment_default (NODE_ENV env))).
  { unfold s'. rewrite setLevel_run. cbn [snd with_level this logLevel set_logLevel].
    unfold s. now rewrite run_ops_environmentDefault,
                construct_environmentDefault. }
  unfold getLevel, ret. cbn [fst]. rewrite Hl. unfold environment_default.
  destruct (env_is (NODE_ENV env) "production") eqn:E1;
    [|destruct (env_is (NODE_ENV env) "staging") eqn:E2;
      [|destruct (env_is (NODE_ENV env) "qa") eqn:E3;
        [|destruct (env_is (NODE_ENV env) "test") eqn:E4]]];
    eexists; (split; [reflexivity|]);
    repeat match goal with
           | H : env_is _ _ = true |- _ => apply env_is_eq in H
           end;
    repeat split; intros; try reflexivity; try congruence;
    repeat match goal with
           | H : env_is ?v ?t = false, H' : ?v = Some ?t |- _ =>
               rewrite H' in H; cbn in H; discriminate
           end.
Qed.

Lemma default_level_has_a_name_witness :
  fst (getLevel (snd (setLevel None
     (snd (construct no_loader None staging_env [] 0)))))
  = Return (Some "res"%string).
Proof.
  destruct (default_level_has_a_name no_loader None staging_env [] 0 [])
    as [k [Hk [_ [Hs _]]]].
  rewrite (Hs eq_refl) in Hk. exact Hk.
Defined.

(** Property X11. After [setLevel(name)] with a level name of rank [r], an event is
    filtered out exactly when its type is a level name of a rank above
    [r]: a type that is no level name always passes, and after
    [setLevel('debug')] everything passes.  A higher threshold never
    filters what a lower one lets through. *)
Theorem threshold_filters_by_rank :
  forall (name : string) (r : Z) (s : State),
    rank name = Some r ->
    let s' := snd (setLevel (Some name) s) in
    (forall type,
        filtered type (logLevel (this s')) = true <->
        exists r', rank type = Some r' /\ r < r') /\
    (name = "debug"%string ->
     forall type, filtered type (logLevel (this s')) = false) /\
    (forall type T T',
        T <= T' -> filtered type (JS.Number T) = false ->
        filtered type (JS.Number T') = false).
Proof.
  intros name r s Hr s'.
  assert (Hl : logLevel (this s') = JS.Number r)
    by (unfold s'; now rewrite (setLevel_ranked _ _ _ Hr)).
  assert (Hiff : forall type,
             filtered type (JS.Number r) = true <->
             exists r', rank type = Some r' /\ r < r').
  { intros type. destruct (rank type) as [r'|] eqn:E.
    - rewrite (filtered_ranked _ _ _ E). split.
      + intros H. apply Z.ltb_lt in H. now exists r'.
      + intros [r'' [[= <-] H]]. now apply Z.ltb_lt.
    - rewrite (filtered_unranked _ _ E). split; [discriminate|].
      intros [r' [H _]]. discriminate. }
  split; [|split].
  - intros type. rewrite Hl. apply Hiff.
  - intros -> type. rewrite Hl.
    assert (r = 7) by (cbv in Hr; congruence). subst r.
    destruct (filtered type (JS.Number 7)) eqn:E; [|reflexivity].
    apply Hiff in E. destruct E as [r' [H1 H2]].
    apply rank_range in H1. lia.
  - intros type T T' Hle. destruct (rank type) as [r'|] eqn:E.
    + rewrite !(filtered_ranked _ _ _ E). intros H.
      apply Z.ltb_ge in H. apply Z.ltb_ge. lia.
    + now rewrite !(filtered_unranked _ _ E).
Qed.

Lemma threshold_filters_by_rank_witness :
  filtered "info" (logLevel (this (snd (setLevel (Some "req") sample_state))))
  = true /\
  filtered "silly" (logLevel (this (snd (setLevel (Some "req") sample_state))))
  = false.
Proof.
  destruct (threshold_filters_by_rank "req" 4 sample_state eq_refl)
    as [H _].
  split.
  - apply H. exists 6. split; [reflexivity|lia].
  - destruct (filtered "silly" _) eqn:E; [|reflexivity].
    apply H in E. destruct E as [r' [E _]]. discriminate.
Defined.

(** Property X12. The constructor takes any non-zero [conf.level] as the threshold
    without checking that it is a rank.  A level of 7 or more lets every
    event through; a level below 1 filters every recognized level (types
    that are no level names still pass); and outside 1 to 7 [getLevel()]
    answers [undefined]. *)
Theorem constructor_takes_any_level :
  forall (superimport : string -> option LoggerClass) (c : Conf)
         (env : ProcessEnv) (tr : list Effect) (n : nat) (lv : Z),
    level c = Some lv -> lv <> 0 ->
    let s := snd (construct superimport (Some c) env tr n) in
    logLevel (this s) = JS.Number lv /\
    (7 <= lv -> forall type, filtered type (logLevel (this s)) = false) /\
    (lv < 1 -> forall type,
        filtered type (logLevel (this s)) = true <-> rank type <> None) /\
    (lv < 1 \/ 7 < lv -> fst (getLevel s) = Return None).
Proof.
  intros superimport c env tr n lv Hlv Hnz s.
  assert (Hl : logLevel (this s) = JS.Number lv).
  { unfold s. rewrite construct_logLevel. unfold initial_level.
    rewrite Hlv. destruct (Z.eqb_spec lv 0); [contradiction|reflexivity]. }
  split; [exact Hl|split; [|split]].
  - intros H7 type. rewrite Hl. destruct (rank type) as [r|] eqn:E.
    + rewrite (filtered_ranked _ _ _ E). apply rank_range in E.
      apply Z.ltb_ge. lia.
    + now apply filtered_unranked.
  - intros H1 type. rewrite Hl. destruct (rank type) as [r|] eqn:E.
    + rewrite (filtered_ranked _ _ _ E). apply rank_range in E.
      split; [discriminate|]. intros _. apply Z.ltb_lt. lia.
    + rewrite (filtered_unranked _ _ E). split; [discriminate|congruence].
  - intros Hout. unfold getLevel, ret. cbn [fst]. rewrite Hl.
    destruct (first_key_with (JS.Number lv) definedLogLevels) as [k|] eqn:E;
      [|reflexivity].
    destruct (first_key_rank _ _ E) as [r [Hr [= <-]]].
    apply rank_range in Hr. lia.
Qed.

Lemma constructor_takes_any_level_witness :
  logLevel (this (snd (construct no_loader (Some (mkConf (Some 42) false None))
                         staging_env [] 0))) = JS.Number 42.
Proof.
  assert (H : 42 <> 0) by discriminate.
  exact (proj1 (constructor_takes_any_level no_loader
                  (mkConf (Some 42) false None) staging_env [] 0 42
                  eq_refl H)).
Defined.

(** Property X13. A threshold taken from [Object.prototype]: after [setLevel] with the
    name of an inherited member, which [setLevel] accepts, [getLevel()]
    answers [undefined] and no recognized level is filtered any more. *)
Theorem inherited_threshold_filters_nothing :
  forall (name : string) (s : State),
    rank name = None -> JS.is_prototype_member name = true ->
    let s' := snd (setLevel (Some name) s) in
    fst (setLevel (Some name) s) = Return This /\
    fst (getLevel s') = Return None /\
    (forall type r, rank type = Some r ->
                    filtered type (logLevel (this s')) = false).
Proof.
  intros name s Hr Hp s'. unfold s'.
  rewrite (setLevel_inherited _ _ Hr Hp). cbn [fst snd].
  split; [reflexivity|split].
  - reflexivity.
  - intros type r Ht. unfold filtered.
    rewrite (level_lookup_rank _ _ Ht). cbn.
    apply andb_false_r.
Qed.

Lemma inherited_threshold_filters_nothing_witness :
  filtered "debug"
    (logLevel (this (snd (setLevel (Some "toString") sample_state))))
  = false.
Proof.
  exact (proj2 (proj2 (inherited_threshold_filters_nothing "toString"
                         sample_state eq_refl eq_refl))
               "debug"%string 7 eq_refl).
Defined.

(** ** How a dispatch ends *)





(** Property X15. A call without message, or with an empty or otherwise falsy one, is
    dispatched with the text [No message] in both renderings. *)
Theorem absent_message_is_replaced :
  forall (s : State) (type : string) (msg : Message) (data : list string)
         (clk : Clock),
    msg = MFalsy \/ msg = MString EmptyString ->
    exists added,
      snd (writeLog type msg data clk s) = after s added /\
      forall i ev, In (ELog i ev) added ->
        ev_msg ev = "No message"%string /\ ev_cmsg ev = "No message"%string.
Proof.
  intros s type msg data clk Hmsg.
  destruct (writeLog_carries type msg data clk s) as [added [E H]].
  exists added. split; [exact E|].
  intros i ev Hin. destruct (H i ev Hin) as [p [c [Hr ->]]].
  destruct Hmsg as [-> | ->]; cbn in Hr; injection Hr as <- <-;
    split; reflexivity.
Qed.

Lemma absent_message_is_replaced_witness :
  let ev := mkEvent "error" "No message" "No message" [] (now noon)
                    (uptime noon) in
  In (ELog 0 ev) (trace (snd (writeLog "error" MFalsy [] noon two_healthy))) /\
  ev_msg ev = "No message"%string.
Proof.
  intros ev.
  destruct (absent_message_is_replaced two_healthy "error" MFalsy [] noon
              (or_introl eq_refl)) as [added [E Hall]].
  assert (Hin : In (ELog 0 ev) added).
  { assert (Htr : trace (snd (writeLog "error" MFalsy [] noon two_healthy))
                  = added) by (rewrite E; reflexivity).
    rewrite <- Htr. left. reflexivity. }
  split.
  - rewrite E. exact Hin.
  - exact (proj1 (Hall 0%nat ev Hin)).
Defined.





(** ** Flush, the edges *)

(** Property X17. A backend whose [flush] throws instead of returning a promise ends
    [flush()] on the spot: the exception reaches the caller, no promise is
    returned, and the backends registered behind it are not asked. *)
Theorem flush_interrupted_by_throw :
  forall (s : State) (before behind : list Instance) (lg : Instance),
    instances s = before ++ lg :: behind ->
    Forall flush_returns before ->
    cls_flush (inst_class lg) = Some FlushThrows ->
    let added := flush_effects before ++ [EFlush (inst_id lg)] in
    flush s = (Throw (BackendError (inst_id lg)), after s added) /\
    flush_calls added
    = map inst_id (filter has_flush before) ++ [inst_id lg].
Proof.
  intros s before behind lg Hsplit Hbefore Hlg added. split.
  - unfold flush, bind. fold (instances s). rewrite Hsplit.
    now rewrite (flush_each_interrupted _ _ _ _ _ Hbefore Hlg).
  - unfold added. rewrite flush_calls_app, flush_calls_effects. reflexivity.
Qed.

(** Property X18. With no backend that can flush (in particular with none registered)
    [flush()] asks nobody and returns a promise that is fulfilled at
    once. *)
Theorem flush_with_nothing_to_flush :
  forall s : State,
    Forall (fun lg => has_flush lg = false) (instances s) ->
    flush s = (Return (mkPromise 0 Fulfilled), s).
Proof.
  intros s H.
  assert (Hret : Forall flush_returns (instances s)).
  { eapply Forall_impl; [|exact H]. intros lg Hlg. unfold flush_returns.
    unfold has_flush in Hlg. destruct (cls_flush (inst_class lg)); congruence. }
  assert (Hps : flush_promises (instances s) = []).
  { induction H as [|lg lgs Hlg _ IH]; [reflexivity|].
    cbn [flush_promises]. unfold has_flush in Hlg.
    destruct (cls_flush (inst_class lg)); [discriminate|].
    apply IH. now inversion Hret. }
  assert (Heff : flush_effects (instances s) = []).
  { unfold flush_effects.
    replace (filter has_flush (instances s)) with (@nil Instance);
      [reflexivity|].
    clear Hret Hps. induction H as [|lg lgs Hlg _ IH]; [reflexivity|].
    cbn [filter]. now rewrite Hlg. }
  unfold flush, bind, ret. fold (instances s).
  rewrite (flush_each_all _ _ _ Hret), Hps, Heff, after_nil. reflexivity.
Qed.

Lemma flush_interrupted_by_throw_witness :
  flush flush_throws_midway
  = (Throw (BackendError 1), after flush_throws_midway [EFlush 0; EFlush 1]).
Proof.
  assert (H : Forall flush_returns [mkInstance 0 Healthy])
    by (repeat constructor; discriminate).
  exact (proj1 (flush_interrupted_by_throw flush_throws_midway
                  [mkInstance 0 Healthy] [mkInstance 2 Healthy]
                  (mkInstance 1 Net) eq_refl H eq_refl)).
Defined.

Lemma flush_with_nothing_to_flush_witness :
  flush sample_state = (Return (mkPromise 0 Fulfilled), sample_state) /\
  flush (snd (addLogger "mail" Other sample_state))
  = (Return (mkPromise 0 Fulfilled), snd (addLogger "mail" Other sample_state)).
Proof.
  split.
  - apply flush_with_nothing_to_flush. constructor.
  - apply flush_with_nothing_to_flush. repeat constructor.
Defined.

(** ** Stripping, piece by piece *)

Lemma match_here_no_esc c t :
  Ascii.eqb c Ansi.esc = false -> Ansi.match_here (String c t) = None.
Proof.
  intros H. unfold Ansi.match_here. destruct t as [|b t]; [reflexivity|].
  now rewrite H.
Qed.

(** Property X19. Stripping keeps text and drops escape sequences: a stretch of text
    without escape character stays as it is, an escape sequence behind it
    disappears, and stripping goes on with what follows.  The result is
    never longer than the message. *)
Theorem strip_keeps_text_drops_escapes :
  forall (t e rest : string),
    no_esc t = true -> Escape e ->
    Ansi.strip (t ++ e ++ rest)%string = (t ++ Ansi.strip rest)%string /\
    Ansi.strip t = t /\
    (String.length (Ansi.strip (t ++ e ++ rest))
     < String.length (t ++ e ++ rest)%string)%nat.
Proof.
  intros t e rest Ht He.
  assert (H1 : Ansi.strip (t ++ e ++ rest)%string
               = (t ++ Ansi.strip rest)%string).
  { induction t as [|c t IH].
    - cbn [String.append]. destruct He as [p Hp]. cbn [String.append].
      rewrite strip_equation.
      assert (Hm : Ansi.match_here
                     (String Ansi.esc (String "[" (p ++ rest)%string))
                   = Some rest).
      { apply match_here_spec. exists (String Ansi.esc (String "[" p)).
        split; [now constructor|reflexivity]. }
      now rewrite Hm.
    - cbn [no_esc] in Ht. apply andb_true_iff in Ht. destruct Ht as [Hc Ht].
      apply negb_true_iff in Hc.
      cbn [String.append]. rewrite strip_equation.
      rewrite (match_here_no_esc _ _ Hc). now rewrite (IH Ht). }
  assert (H2 : Ansi.strip t = t).
  { clear H1. induction t as [|c t IH]; [reflexivity|].
    cbn [no_esc] in Ht. apply andb_true_iff in Ht. destruct Ht as [Hc Ht].
    apply negb_true_iff in Hc.
    rewrite strip_equation, (match_here_no_esc _ _ Hc). now rewrite (IH Ht). }
  split; [exact H1|split; [exact H2|]].
  rewrite H1.
  assert (Hlen : forall a b : string,
             String.length (a ++ b)%string
             = (String.length a + String.length b)%nat).
  { intros a b. induction a as [|x a IH]; [reflexivity|].
    cbn. now rewrite IH. }
  rewrite !Hlen.
  destruct (replace_all_length (String.length rest) rest (le_n _)) as [Hle _].
  fold (Ansi.strip rest) in Hle.
  destruct He as [p Hp]. cbn [String.length]. lia.
Qed.

Lemma strip_keeps_text_drops_escapes_witness :
  Ansi.strip ("warning: " ++ String Ansi.esc "[1;31m" ++ "hot")%string
  = ("warning: " ++ Ansi.strip "hot")%string.
Proof.
  refine (proj1 (strip_keeps_text_drops_escapes "warning: "
                   (String Ansi.esc "[1;31m") "hot" eq_refl _)).
  apply Escape_intro.
  apply (Params_group "1" "31m"); [reflexivity|discriminate|].
  apply (Params_end "31"). reflexivity.
Defined.

(** ** The labelled timer *)

Section TimerFacts.

Variable util_format : string -> string -> string.

(** Property X20. [stop()] and [log(msg)] of a labelled timer dispatch at level [info],
    rank 6.  Under a threshold below 6, the threshold 3 a facade starts
    with among them, they do nothing at all.  From 6 on every registered
    backend is handed one [info] event with the formatted text as message
    and no further data, the backends returning.  Either way the handle's
    method returns nothing. *)
Theorem labelled_timer_logs_at_info :
  forall (s : State) (T : Z) (given : option string)
         (message reading : string) (clk : Clock),
    timer_label given = Some message ->
    logLevel (this s) = JS.Number T ->
    let text := source_message (util_format message reading) in
    let ev := mkEvent "info" (Ansi.strip text) text [] (now clk) (uptime clk) in
    (T < 6 ->
     labelled_stop util_format message reading clk s = (Return Void, s) /\
     labelled_log util_format message reading clk s = (Return Void, s)) /\
    (6 <= T ->
     Forall (fun lg => cls_log_throws (inst_class lg) ev = false)
            (instances s) ->
     labelled_stop util_format message reading clk s
     = (Return Void,
        after s (flat_map (delivery (debugMode (this s)) ev clk)
                          (instances s))) /\
     labelled_log util_format message reading clk s
     = labelled_stop util_format message reading clk s).
Proof.
  intros s T given message reading clk _ HT text ev.
  assert (Hrank : rank "info" = Some 6) by reflexivity.
  split.
  - intros Hlt.
    assert (E : writeLog "info" (MString (util_format message reading)) [] clk s
                = (Return This, s)).
    { unfold writeLog. rewrite HT, (filtered_ranked _ _ _ Hrank).
      destruct (Z.ltb_spec T 6); [reflexivity|lia]. }
    unfold labelled_stop, labelled_log, bind, ret. now rewrite E.
  - intros Hge Hok.
    assert (Hf : filtered "info" (logLevel (this s)) = false).
    { rewrite HT, (filtered_ranked _ _ _ Hrank).
      destruct (Z.ltb_spec T 6); [lia|reflexivity]. }
    assert (Hr : rendering (MString (util_format message reading))
                 = Return (Ansi.strip text, text)) by reflexivity.
    assert (E : writeLog "info" (MString (util_format message reading)) [] clk s
                = (Return Void,
                   after s (flat_map (delivery (debugMode (this s)) ev clk)
                                     (instances s)))).
    { rewrite (writeLog_emits _ _ _ _ _ _ _ Hf Hr). fold ev.
      now rewrite (fan_out_all _ _ _ _ _ Hok). }
    unfold labelled_stop, labelled_log, bind, ret. rewrite E.
    split; reflexivity.
Qed.

End TimerFacts.

Lemma labelled_timer_logs_at_info_witness :
  labelled_stop sample_format "elapsed: %s" "12ms" noon two_healthy
  = (Return Void, two_healthy) /\
  log_calls (trace (snd (labelled_stop sample_format "elapsed: %s" "12ms" noon
                           (with_level (JS.Number 6) two_healthy))))
  = [ (0%nat, mkEvent "info" "elapsed: 12ms" "elapsed: 12ms" [] (now noon)
                      (uptime noon));
      (1%nat, mkEvent "info" "elapsed: 12ms" "elapsed: 12ms" [] (now noon)
                      (uptime noon)) ].
Proof.
  assert (H3 : 3 < 6) by lia.
  assert (H6 : 6 <= 6) by lia.
  split.
  - exact (proj1 (proj1 (labelled_timer_logs_at_info sample_format two_healthy
                           3 (Some "elapsed: %s"%string) "elapsed: %s" "12ms"
                           noon eq_refl eq_refl) H3)).
  - destruct (proj2 (labelled_timer_logs_at_info sample_format
                       (with_level (JS.Number 6) two_healthy) 6
                       (Some "elapsed: %s"%string) "elapsed: %s" "12ms" noon
                       eq_refl eq_refl) H6) as [E _].
    + repeat constructor.
    + rewrite E. reflexivity.
Defined.

(** ** The scan and the regular expression *)

(** Property X21. At the head of any string, the scan that [writeLog] strips with finds
    a match exactly when a string of the language of the pattern, the
    escape character, an opening bracket, groups of digits each closed by
    a semicolon, digits, the letter m, starts the string; what it returns
    is what follows that string.  No two strings of the language start
    the same string, so the preference of the regular expression for long
    matches cannot change what is removed. *)
Theorem scan_agrees_with_pattern :
  forall s rest : string,
    (Ansi.match_here s = Some rest <->
     exists m, Escape m /\ s = (m ++ rest)%string) /\
    (forall m1 m2 r1 r2,
        Escape m1 -> Escape m2 ->
        s = (m1 ++ r1)%string -> s = (m2 ++ r2)%string ->
        m1 = m2 /\ r1 = r2).
Proof.
  intros s rest. split; [apply match_here_spec|].
  intros m1 m2 r1 r2 H1 H2 E1 E2.
  assert (Hr : r1 = r2)
    by (apply (escape_prefix_unique m1 m2 r1 r2 H1 H2); congruence).
  split; [|exact Hr]. subst r2 s.
  clear H1 H2. revert m2 E2.
  induction m1 as [|c m1 IH]; intros m2 E2.
  - destruct m2 as [|c2 m2]; [reflexivity|].
    exfalso. cbn in E2.
    assert (Hlen : String.length r1
                   = String.length (String c2 (m2 ++ r1)%string))
      by now rewrite <- E2.
    cbn in Hlen.
    assert (Happ : forall a b : string,
               String.length (a ++ b)%string
               = (String.length a + String.length b)%nat).
    { intros a b. induction a as [|x a IHa]; [reflexivity|].
      cbn. now rewrite IHa. }
    rewrite Happ in Hlen. lia.
  - destruct m2 as [|c2 m2].
    + exfalso. cbn in E2.
      assert (Hlen : String.length (String c (m1 ++ r1)%string)
                     = String.length r1) by now rewrite E2.
      cbn in Hlen.
      assert (Happ : forall a b : string,
                 String.length (a ++ b)%string
                 = (String.length a + String.length b)%nat).
      { intros a b. induction a as [|x a IHa]; [reflexivity|].
        cbn. now rewrite IHa. }
      rewrite Happ in Hlen. lia.
    + cbn in E2. injection E2 as -> E2. f_equal. now apply IH.
Qed.

Lemma scan_agrees_with_pattern_witness :
  Ansi.match_here (String Ansi.esc "[0;1mrest") = Some "rest"%string.
Proof.
  apply (proj1 (scan_agrees_with_pattern (String Ansi.esc "[0;1mrest") "rest")).
  exists (String Ansi.esc "[0;1m"). split; [|reflexivity].
  apply Escape_intro.
  apply (Params_group "0" "1m"); [reflexivity|discriminate|].
  apply (Params_end "1"). reflexivity.
Defined.

(** ** The plain rendering and the style sequences of the terminal *)












